(** * Trade-surveillance ETL: the enrichment and validation engine

    A shallow embedding of [p02_enrichment/enrich.py], [p03_validation/rules.py]
    and [p03_validation/validator.py].

    A pandas DataFrame with the default [RangeIndex] is a list of rows, the
    label of a row being its position; a Series is a list of cells; a boolean
    mask is a [list bool].  Nullable string and [Int64] cells are [option]s,
    [float64] cells are binary64 floats whose NaN is the null of the column
    (as in pandas).  Code that can raise returns a [result]. *)

From Stdlib Require Import ZArith List String Ascii Floats Lia Bool Permutation Sorted.
From stdpp Require Import base decidable countable gmap sets strings.

#[local] Open Scope string_scope.
#[local] Open Scope list_scope.
#[local] Open Scope nat_scope.

(* ================================================================== *)
(** ** Exceptions *)

Inductive exn : Type := ValueError | ZeroDivisionError.

Inductive result (A : Type) : Type :=
| Ok (a : A)
| Raise (e : exn).
Arguments Ok {A} a.
Arguments Raise {A} e.

Definition bind {A B : Type} (r : result A) (k : A -> result B) : result B :=
  match r with
  | Ok a => k a
  | Raise e => Raise e
  end.

Notation "'let*' x ':=' r 'in' k" := (bind r (fun x => k))
  (at level 10, x name, r at level 100, k at level 200).

(* ================================================================== *)
(** ** Cells: nulls and float64 *)

Definition isna {A : Type} (x : option A) : bool :=
  match x with
  | None => true
  | Some _ => false
  end.

Definition notna {A : Type} (x : option A) : bool := negb (isna x).

(** [pd.isna] on a float64 value: NaN is the missing value. *)
Definition float_isna (x : float) : bool := PrimFloat.is_nan x.
Definition float_notna (x : float) : bool := negb (float_isna x).

(** An integer converted to float64, rounded to nearest-even. *)
Definition int_to_float64 (z : Z) : float :=
  SF2Prim (binary_normalize prec emax z 0 false).

(** [Series.astype("float64")] on a nullable [Int64] column: [pd.NA] becomes NaN. *)
Definition astype_float64 (q : option Z) : float :=
  match q with
  | Some z => int_to_float64 z
  | None => nan
  end.

(* ================================================================== *)
(** ** Canonical schema ([p01_ingestion/schema.py]) *)

Definition CANONICAL_ORDER : list string :=
  [ "trade_id"; "order_id"; "client_id";
    "isin"; "cusip"; "symbol";
    "side"; "quantity"; "price";
    "trade_date"; "trade_ts";
    "currency"; "venue"; "instrument_type";
    "liquidity_bucket"; "desk"; "source_system";
    "risk_tier"; "region"; "notional" ].

(** One canonical record, typed as [DTYPES] says. *)
Record Trade : Type := mkTrade {
  trade_id : option string;
  order_id : option string;
  client_id : option string;
  isin : option string;
  cusip : option string;
  symbol : option string;
  side : option string;
  quantity : option Z;
  price : float;
  trade_date : option string;
  trade_ts : option string;
  currency : option string;
  venue : option string;
  instrument_type : option string;
  liquidity_bucket : option string;
  desk : option string;
  source_system : option string;
  risk_tier : option string;
  region : option string;
  notional : float
}.

Definition set_symbol (v : option string) (t : Trade) : Trade :=
  mkTrade (trade_id t) (order_id t) (client_id t) (isin t) (cusip t) v
          (side t) (quantity t) (price t) (trade_date t) (trade_ts t)
          (currency t) (venue t) (instrument_type t) (liquidity_bucket t)
          (desk t) (source_system t) (risk_tier t) (region t) (notional t).

Definition set_instrument_type (v : option string) (t : Trade) : Trade :=
  mkTrade (trade_id t) (order_id t) (client_id t) (isin t) (cusip t) (symbol t)
          (side t) (quantity t) (price t) (trade_date t) (trade_ts t)
          (currency t) (venue t) v (liquidity_bucket t)
          (desk t) (source_system t) (risk_tier t) (region t) (notional t).

Definition set_liquidity_bucket (v : option string) (t : Trade) : Trade :=
  mkTrade (trade_id t) (order_id t) (client_id t) (isin t) (cusip t) (symbol t)
          (side t) (quantity t) (price t) (trade_date t) (trade_ts t)
          (currency t) (venue t) (instrument_type t) v
          (desk t) (source_system t) (risk_tier t) (region t) (notional t).

Definition set_risk_tier (v : option string) (t : Trade) : Trade :=
  mkTrade (trade_id t) (order_id t) (client_id t) (isin t) (cusip t) (symbol t)
          (side t) (quantity t) (price t) (trade_date t) (trade_ts t)
          (currency t) (venue t) (instrument_type t) (liquidity_bucket t)
          (desk t) (source_system t) v (region t) (notional t).

Definition set_region (v : option string) (t : Trade) : Trade :=
  mkTrade (trade_id t) (order_id t) (client_id t) (isin t) (cusip t) (symbol t)
          (side t) (quantity t) (price t) (trade_date t) (trade_ts t)
          (currency t) (venue t) (instrument_type t) (liquidity_bucket t)
          (desk t) (source_system t) (risk_tier t) v (notional t).

Definition set_notional (v : float) (t : Trade) : Trade :=
  mkTrade (trade_id t) (order_id t) (client_id t) (isin t) (cusip t) (symbol t)
          (side t) (quantity t) (price t) (trade_date t) (trade_ts t)
          (currency t) (venue t) (instrument_type t) (liquidity_bucket t)
          (desk t) (source_system t) (risk_tier t) (region t) v.

(** A row of a frame inside and after enrichment: the canonical columns
    ([base]) and the columns the two merges add.  A column that is not
    listed in the frame's [columns] does not exist; its field is not read. *)
Record Row : Type := mkRow {
  base : Trade;
  symbol_pm : option string;
  instrument_type_pm : option string;
  liq_rule_key : option string;
  risk_tier_x : option string;
  region_x : option string;
  risk_tier_y : option string;
  region_y : option string
}.

Definition map_base (f : Trade -> Trade) (r : Row) : Row :=
  mkRow (f (base r)) (symbol_pm r) (instrument_type_pm r) (liq_rule_key r)
        (risk_tier_x r) (region_x r) (risk_tier_y r) (region_y r).

Definition set_liq_rule_key (v : option string) (r : Row) : Row :=
  mkRow (base r) (symbol_pm r) (instrument_type_pm r) v
        (risk_tier_x r) (region_x r) (risk_tier_y r) (region_y r).

Record Frame : Type := mkFrame {
  columns : list string;
  rows : list Row
}.

Definition has_column (c : string) (cols : list string) : bool :=
  bool_decide (c ∈ cols).

(** Reference tables as [_load_reference] returns them.  The product master
    always has the five columns read below ([liq_rule_key] is created when
    the file has neither it nor its alias).  A cell is a string or null:
    these are the tables whose key columns [read_csv] read as text.  A key
    column in which every value is a number is read as a numeric column,
    and the merge of the batch's text key with it raises; so what is proved
    below of a run is proved of a run that returns. *)
Record Product : Type := mkProduct {
  pm_isin : option string;
  pm_cusip : option string;
  pm_symbol : option string;
  pm_instrument_type : option string;
  pm_liq_rule_key : option string
}.

Record Client : Type := mkClient {
  customerID : option string;
  cm_risk_tier : option string;
  cm_region : option string
}.

Record ClientMaster : Type := mkClientMaster {
  cm_columns : list string;
  cm_rows : list Client
}.

(* ================================================================== *)
(** ** The pandas operations the engine uses *)

(** Join keys are compared as pandas compares them: a null key matches a
    null key. *)
Definition key_eq (a b : option string) : bool := bool_decide (a = b).

(** [left.merge(right, how="left")]: every left row, in order, once per
    matching right row (in the right table's order), or once with nothing
    from the right when no key matches. *)
Definition merge_left {L R O : Type}
    (left_on : L -> option string) (right_on : R -> option string)
    (join : L -> option R -> O) (left : list L) (right : list R) : list O :=
  flat_map
    (fun l =>
       match List.filter (fun r => key_eq (left_on l) (right_on r)) right with
       | [] => [join l None]
       | matches => List.map (fun r => join l (Some r)) matches
       end)
    left.

(** [mask.any()] *)
Definition any (mask : list bool) : bool := existsb id mask.

(** The number of selected rows. *)
Definition count_true (mask : list bool) : nat :=
  length (List.filter id mask).

(** [df.loc[mask]] for a mask labelled [0..len(mask)-1] on a frame labelled
    [0..len(df)-1]: the mask is first re-indexed to the frame's labels. *)
Definition loc_mask {A : Type} (mask : list bool) (df : list A) : list A :=
  List.map snd (List.filter fst (combine (firstn (length df) mask) df)).

(** [df[mask].index] *)
Definition index_where (mask : list bool) : list nat :=
  List.map fst (List.filter snd (combine (seq 0 (length mask)) mask)).

(** Positional assignment of [vals] to the selected rows. *)
Fixpoint assign_values {A V : Type} (set : V -> A -> A)
    (mask : list bool) (vals : list V) (df : list A) : list A :=
  match mask, df with
  | true :: mask', a :: df' =>
      match vals with
      | v :: vals' => set v a :: assign_values set mask' vals' df'
      | [] => a :: df'
      end
  | false :: mask', a :: df' => a :: assign_values set mask' vals df'
  | _, _ => df
  end.

(** [df.loc[mask, cols] = values] with a NumPy array on the right: the
    array has one line per selected row, or a single line, which NumPy
    broadcasts to every selected row; any other shape raises. *)
Definition loc_assign {A V : Type} (set : V -> A -> A)
    (mask : list bool) (vals : list V) (df : list A) : result (list A) :=
  if Nat.eqb (length vals) (count_true mask)
  then Ok (assign_values set mask vals df)
  else
    match vals with
    | [v] => Ok (assign_values set mask (repeat v (count_true mask)) df)
    | _ => Raise ValueError
    end.

(** [s.loc[mask] = other], both Series on the same labels: a selected cell
    takes the cell of [other] with its label. *)
Fixpoint assign_aligned {A : Type}
    (mask : list bool) (other : list A) (s : list A) : list A :=
  match mask, other, s with
  | m :: mask', o :: other', a :: s' =>
      (if m then o else a) :: assign_aligned mask' other' s'
  | _, _, _ => s
  end.

(** [this.combine_first(other)], read at the labels of [this]. *)
Fixpoint combine_first {A : Type} (this other : list (option A)) : list (option A) :=
  match this, other with
  | [], _ => []
  | x :: this', [] => x :: this'
  | x :: this', y :: other' =>
      (match x with Some _ => x | None => y end) :: combine_first this' other'
  end.

(** [df[col] = series]: the column is replaced cell by cell. *)
Fixpoint set_column {A V : Type} (set : V -> A -> A)
    (vals : list V) (df : list A) : list A :=
  match vals, df with
  | v :: vals', a :: df' => set v a :: set_column set vals' df'
  | _, _ => df
  end.

(* ================================================================== *)
(** ** Enrichment ([p02_enrichment/enrich.py]) *)

Definition product_join (t : Trade) (m : option Product) : Row :=
  mkRow t
        (match m with Some p => pm_symbol p | None => None end)
        (match m with Some p => pm_instrument_type p | None => None end)
        (match m with Some p => pm_liq_rule_key p | None => None end)
        None None None None.

Definition cusip_join (_ : Trade) (m : option Product)
  : option string * option string * option string :=
  match m with
  | Some p => (pm_symbol p, pm_instrument_type p, pm_liq_rule_key p)
  | None => (None, None, None)
  end.

Definition set_cusip_values
    (v : option string * option string * option string) (r : Row) : Row :=
  let '(sym, ity, lrk) := v in
  set_liq_rule_key lrk (map_base (fun t => set_instrument_type ity (set_symbol sym t)) r).

(** [_enrich_product].  The frame has [symbol] and [instrument_type]
    already, so the merge on [isin] keeps them under their names (suffix
    [""]) and stores the product master's under [symbol_pm] and
    [instrument_type_pm]; [liq_rule_key] is new and keeps its name. *)
Definition _enrich_product (df : list Trade) (pm : list Product) : result (list Row) :=
  let out := merge_left isin pm_isin product_join df pm in
  let need_cusip :=
    List.map (fun r => isna (symbol (base r)) && notna (cusip (base r))) out in
  let* out :=
    if any need_cusip then
      let by_cusip := merge_left cusip pm_cusip cusip_join (loc_mask need_cusip df) pm in
      loc_assign set_cusip_values need_cusip by_cusip out
    else Ok out
  in
  let out :=
    set_column (fun v => map_base (set_instrument_type v))
      (combine_first (List.map (fun r => instrument_type (base r)) out)
                     (List.map instrument_type df))
      out in
  let out :=
    set_column (fun v => map_base (set_symbol v))
      (combine_first (List.map (fun r => symbol (base r)) out)
                     (List.map symbol df))
      out in
  Ok out.

Definition product_columns (cols : list string) : list string :=
  cols ++ ["symbol_pm"; "instrument_type_pm"; "liq_rule_key"].

(** The merge on the client key.  A column that both sides have is renamed
    with the suffixes [_x] and [_y], so no column of that name is left and
    the code then creates it as null. *)
Definition client_join (df_cols cm_cols : list string) (r : Row) (m : option Client) : Row :=
  let rt := match m with Some c => cm_risk_tier c | None => None end in
  let rg := match m with Some c => cm_region c | None => None end in
  let clash c := has_column c df_cols && has_column c cm_cols in
  let new_col c own ref :=
    if has_column c cm_cols
    then (if has_column c df_cols then None else ref)
    else (if has_column c df_cols then own else None) in
  mkRow (set_region (new_col "region" (region (base r)) rg)
           (set_risk_tier (new_col "risk_tier" (risk_tier (base r)) rt) (base r)))
        (symbol_pm r) (instrument_type_pm r) (liq_rule_key r)
        (if clash "risk_tier" then risk_tier (base r) else risk_tier_x r)
        (if clash "region" then region (base r) else region_x r)
        (if clash "risk_tier" then rt else risk_tier_y r)
        (if clash "region" then rg else region_y r).

Definition client_columns (df_cols cm_cols : list string) : list string :=
  let picked := List.filter (fun c => has_column c cm_cols) ["risk_tier"; "region"] in
  let left := List.map (fun c => if has_column c picked then c +:+ "_x" else c) df_cols in
  let right := List.map (fun c => if has_column c df_cols then c +:+ "_y" else c) picked in
  let out := left ++ right in
  let out := if has_column "risk_tier" out then out else out ++ ["risk_tier"] in
  if has_column "region" out then out else out ++ ["region"].

Definition _enrich_client (df : Frame) (cm : ClientMaster) : Frame :=
  if has_column "customerID" (cm_columns cm) then
    mkFrame (client_columns (columns df) (cm_columns cm))
            (merge_left (fun r => client_id (base r)) customerID
                        (client_join (columns df) (cm_columns cm))
                        (rows df) (cm_rows cm))
  else
    mkFrame (let out := columns df in
             let out := if has_column "risk_tier" out then out else out ++ ["risk_tier"] in
             if has_column "region" out then out else out ++ ["region"])
            (List.map (map_base (fun t => set_region None (set_risk_tier None t))) (rows df)).

Definition _derive_notional (df : Frame) : Frame :=
  mkFrame (columns df)
    (List.map
       (fun r => map_base (set_notional (astype_float64 (quantity (base r)) * price (base r))%float) r)
       (rows df)).

(** The threshold rule applied to the rows that still have no bucket. *)
Definition rule (it : option string) (n : float) : option string :=
  if isna it || float_isna n then None
  else if bool_decide (it = Some "BOND") then
    if (5000000 <=? n)%float then Some "HIGH"
    else if (1000000 <=? n)%float then Some "MED"
    else Some "LOW"
  else if bool_decide (it ∈ [Some "SWAP"; Some "FUTURE"; Some "OPTION"; Some "REPO"]) then
    if (10000000 <=? n)%float then Some "HIGH"
    else if (2000000 <=? n)%float then Some "MED"
    else Some "LOW"
  else None.

Definition _fill_liquidity (df : Frame) : Frame :=
  let src := List.map (fun r => liquidity_bucket (base r)) (rows df) in
  let filled := src in
  let needs_fill :=
    List.map (fun r => isna (liquidity_bucket (base r)) && notna (liq_rule_key r)) (rows df) in
  let filled := assign_aligned needs_fill (List.map liq_rule_key (rows df)) filled in
  let still_missing := List.map isna filled in
  let filled :=
    if any still_missing then
      assign_aligned still_missing
        (List.map (fun r => rule (instrument_type (base r)) (notional (base r))) (rows df))
        filled
    else filled in
  mkFrame (columns df)
          (set_column (fun v => map_base (set_liquidity_bucket v)) filled (rows df)).

Definition drop_column (c : string) (cols : list string) : list string :=
  List.filter (fun c' => negb (bool_decide (c' = c))) cols.

(** [run_enrichment], on the canonical batch and the two tables that
    [_load_reference] read, their cells text or null (see [Product]). *)
Definition run_enrichment (df_ingested : list Trade)
    (pm : list Product) (cm : ClientMaster) : result Frame :=
  let* out := _enrich_product df_ingested pm in
  let df := mkFrame (product_columns CANONICAL_ORDER) out in
  let df := _enrich_client df cm in
  let df := _derive_notional df in
  let df := _fill_liquidity df in
  let df :=
    if has_column "liq_rule_key" (columns df)
    then mkFrame (drop_column "liq_rule_key" (columns df)) (rows df)
    else df in
  Ok df.

(* ================================================================== *)
(** ** Validation rules ([p03_validation/rules.py]) *)

Definition ENUM_SIDE : gset string := {[ "BUY"; "SELL" ]}.
Definition ENUM_INSTRUMENT : gset string := {[ "BOND"; "SWAP"; "FUTURE"; "OPTION"; "REPO" ]}.
Definition ENUM_CCY : gset string := {[ "USD"; "EUR"; "GBP"; "JPY" ]}.

Record Breach : Type := mkBreach {
  rule_id : string;
  severity : string;
  reason : string;
  row_index : nat;
  keys : string
}.

(** [df.index] *)
Definition index (df : Frame) : list nat := seq 0 (length (rows df)).

(** [str(x)] of a cell of a string column. *)
Definition py_str (x : option string) : string :=
  match x with
  | Some s => s
  | None => "<NA>"
  end.

(** [df.at[i, col]]; every label the rules pass is a label of [df]. *)
Definition at_ (df : Frame) (i : nat) (col : Trade -> option string) : option string :=
  match nth_error (rows df) i with
  | Some r => col (base r)
  | None => None
  end.

Definition _breaches_df (rule_id severity reason : string)
    (idx : list nat) (df : Frame) : list Breach :=
  if Nat.eqb (length idx) 0 then []
  else
    List.map
      (fun i =>
         let t := if has_column "trade_id" (columns df)
                  then py_str (at_ df i trade_id) else "NA" in
         let o := if has_column "order_id" (columns df)
                  then py_str (at_ df i order_id) else "NA" in
         mkBreach rule_id severity reason i
                  ("trade_id=" +:+ t +:+ "|order_id=" +:+ o))
      idx.

(** [Index.union]: the labels of both, ascending, each once. *)
Fixpoint insert_label (i : nat) (idx : list nat) : list nat :=
  match idx with
  | [] => [i]
  | j :: idx' =>
      if i <? j then i :: idx
      else if i =? j then idx
      else j :: insert_label i idx'
  end.

Definition index_union (a b : list nat) : list nat :=
  fold_right insert_label [] (a ++ b).

(** A cell read by column name. *)
Inductive Cell : Type :=
| CStr (s : option string)
| CInt (z : option Z)
| CFloat (f : float).

Definition cell (col : string) (r : Row) : Cell :=
  let t := base r in
  if String.eqb col "trade_id" then CStr (trade_id t)
  else if String.eqb col "order_id" then CStr (order_id t)
  else if String.eqb col "client_id" then CStr (client_id t)
  else if String.eqb col "isin" then CStr (isin t)
  else if String.eqb col "cusip" then CStr (cusip t)
  else if String.eqb col "symbol" then CStr (symbol t)
  else if String.eqb col "side" then CStr (side t)
  else if String.eqb col "quantity" then CInt (quantity t)
  else if String.eqb col "price" then CFloat (price t)
  else if String.eqb col "trade_date" then CStr (trade_date t)
  else if String.eqb col "trade_ts" then CStr (trade_ts t)
  else if String.eqb col "currency" then CStr (currency t)
  else if String.eqb col "venue" then CStr (venue t)
  else if String.eqb col "instrument_type" then CStr (instrument_type t)
  else if String.eqb col "liquidity_bucket" then CStr (liquidity_bucket t)
  else if String.eqb col "desk" then CStr (desk t)
  else if String.eqb col "source_system" then CStr (source_system t)
  else if String.eqb col "risk_tier" then CStr (risk_tier t)
  else if String.eqb col "region" then CStr (region t)
  else if String.eqb col "notional" then CFloat (notional t)
  else if String.eqb col "symbol_pm" then CStr (symbol_pm r)
  else if String.eqb col "instrument_type_pm" then CStr (instrument_type_pm r)
  else if String.eqb col "liq_rule_key" then CStr (liq_rule_key r)
  else if String.eqb col "risk_tier_x" then CStr (risk_tier_x r)
  else if String.eqb col "region_x" then CStr (region_x r)
  else if String.eqb col "risk_tier_y" then CStr (risk_tier_y r)
  else if String.eqb col "region_y" then CStr (region_y r)
  else CStr None.

Definition cell_isna (c : Cell) : bool :=
  match c with
  | CStr s => isna s
  | CInt z => isna z
  | CFloat f => float_isna f
  end.

Definition required : list string :=
  ["trade_id"; "order_id"; "client_id"; "side"; "quantity"; "price";
   "trade_ts"; "instrument_type"].

(** The loop of [rule_mandatory]; a required column that does not exist
    selects every row and leaves the loop. *)
Fixpoint mandatory_loop (cols : list string) (missing_idx : list nat) (df : Frame)
  : list nat :=
  match cols with
  | [] => missing_idx
  | col :: cols' =>
      if negb (has_column col (columns df)) then index df
      else
        mandatory_loop cols'
          (index_union missing_idx
             (index_where (List.map (fun r => cell_isna (cell col r)) (rows df))))
          df
  end.

Definition rule_mandatory (df : Frame) : list Breach :=
  let missing_idx := mandatory_loop required [] df in
  _breaches_df "R001_MANDATORY" "CRITICAL"
    "Mandatory fields must not be null" missing_idx df.

(** [series.isin(values)]: a null is in no set. *)
Definition isin_set (x : option string) (values : gset string) : bool :=
  match x with
  | Some v => bool_decide (v ∈ values)
  | None => false
  end.

Definition rule_domain_enums (df : Frame) : list Breach :=
  let idx := [] in
  let idx :=
    if has_column "side" (columns df) then
      index_union idx (index_where
        (List.map (fun r => negb (isin_set (side (base r)) ENUM_SIDE)
                            && notna (side (base r))) (rows df)))
    else idx in
  let idx :=
    if has_column "instrument_type" (columns df) then
      index_union idx (index_where
        (List.map (fun r => negb (isin_set (instrument_type (base r)) ENUM_INSTRUMENT)
                            && notna (instrument_type (base r))) (rows df)))
    else idx in
  let idx :=
    if has_column "currency" (columns df) then
      index_union idx (index_where
        (List.map (fun r => negb (isin_set (currency (base r)) ENUM_CCY)
                            && notna (currency (base r))) (rows df)))
    else idx in
  _breaches_df "R002_ENUMS" "HIGH" "Value not in allowed enumerations" idx df.

(** [quantity <= 0] on the nullable integer column: null where the cell is
    null, which a mask reads as false. *)
Definition int_le0 (q : option Z) : bool :=
  match q with
  | Some z => (z <=? 0)%Z
  | None => false
  end.

Definition rule_numeric_positive (df : Frame) : list Breach :=
  let idx := [] in
  let idx :=
    if has_column "quantity" (columns df) then
      index_union idx (index_where
        (List.map (fun r => notna (quantity (base r)) && int_le0 (quantity (base r)))
                  (rows df)))
    else idx in
  let idx :=
    if has_column "price" (columns df) then
      index_union idx (index_where
        (List.map (fun r => float_notna (price (base r)) && (price (base r) <=? 0)%float)
                  (rows df)))
    else idx in
  _breaches_df "R003_POSITIVE" "HIGH" "Quantity and Price must be > 0" idx df.

(** Character classes of the two identifier patterns. *)
Definition is_upper (c : ascii) : bool :=
  (65 <=? nat_of_ascii c) && (nat_of_ascii c <=? 90).
Definition is_digit (c : ascii) : bool :=
  (48 <=? nat_of_ascii c) && (nat_of_ascii c <=? 57).
Definition is_upper_or_digit (c : ascii) : bool := is_upper c || is_digit c.

(** [re.fullmatch] for a pattern that is a sequence of character classes. *)
Fixpoint fullmatch (pat : list (ascii -> bool)) (s : string) : bool :=
  match pat, s with
  | [], EmptyString => true
  | p :: pat', String c s' => p c && fullmatch pat' s'
  | _, _ => false
  end.

(** [^[A-Z]{2}[A-Z0-9]{9}[0-9]$] *)
Definition _ISIN_RE : list (ascii -> bool) :=
  repeat is_upper 2 ++ repeat is_upper_or_digit 9 ++ [is_digit].
(** [^[A-Z0-9]{9}$] *)
Definition _CUSIP_RE : list (ascii -> bool) := repeat is_upper_or_digit 9.

(** [notna & ~str.fullmatch(pat)] *)
Definition bad_format (pat : list (ascii -> bool)) (x : option string) : bool :=
  match x with
  | Some s => negb (fullmatch pat s)
  | None => false
  end.

Definition rule_identifier_format (df : Frame) : list Breach :=
  let idx := [] in
  let idx :=
    if has_column "isin" (columns df) then
      index_union idx (index_where
        (List.map (fun r => bad_format _ISIN_RE (isin (base r))) (rows df)))
    else idx in
  let idx :=
    if has_column "cusip" (columns df) then
      index_union idx (index_where
        (List.map (fun r => bad_format _CUSIP_RE (cusip (base r))) (rows df)))
    else idx in
  _breaches_df "R004_ID_FORMAT" "MEDIUM" "Invalid ISIN/CUSIP format" idx df.

(** [|notional - calc| > 0.01]; the literal is the double nearest to 0.01. *)
Definition tolerance : float := 0x1.47ae147ae147bp-7%float.

Definition rule_notional_consistency (df : Frame) : list Breach :=
  let idx := [] in
  let idx :=
    if forallb (fun c => has_column c (columns df)) ["quantity"; "price"; "notional"] then
      index_where
        (List.map
           (fun r =>
              let calc := (astype_float64 (quantity (base r)) * price (base r))%float in
              let diff := abs (notional (base r) - calc)%float in
              notna (quantity (base r)) && float_notna (price (base r))
              && float_notna (notional (base r)) && (tolerance <? diff)%float)
           (rows df))
    else idx in
  _breaches_df "R006_NOTIONAL" "LOW"
    "Notional differs from quantity*price (tolerance 0.01)" idx df.

(** [df.duplicated(subset, keep=False)]: a row is marked when its key
    occurs on more than one row; nulls are equal to each other. *)
Definition duplicated {K : Type} (eqb : K -> K -> bool) (ks : list K) : list bool :=
  List.map (fun k => 2 <=? length (List.filter (eqb k) ks)) ks.

Definition float_key_eq (a b : float) : bool :=
  (a =? b)%float || (float_isna a && float_isna b).

Definition soft_key (r : Row) : option string * option string * option Z * float :=
  (order_id (base r), trade_ts (base r), quantity (base r), price (base r)).

Definition soft_key_eq (a b : option string * option string * option Z * float) : bool :=
  let '(o1, t1, q1, p1) := a in
  let '(o2, t2, q2, p2) := b in
  bool_decide (o1 = o2) && bool_decide (t1 = t2) && bool_decide (q1 = q2)
  && float_key_eq p1 p2.

Definition rule_duplicate_keys (df : Frame) : list Breach :=
  let idx := [] in
  let idx :=
    if has_column "trade_id" (columns df) then
      let d1 := index_where (duplicated key_eq (List.map (fun r => trade_id (base r)) (rows df))) in
      index_union idx d1
    else idx in
  let cols := ["order_id"; "trade_ts"; "quantity"; "price"] in
  let idx :=
    if forallb (fun c => has_column c (columns df)) cols then
      let d2 := index_where (duplicated soft_key_eq (List.map soft_key (rows df))) in
      index_union idx d2
    else idx in
  _breaches_df "R007_DUPLICATES" "CRITICAL"
    "Duplicate trade_id or (order_id,trade_ts,quantity,price) collision" idx df.

(** [max(1, n)], [100.0 * n], [x / n] and [round(x, ndigits)] of Python. *)
Definition py_float_mul_int (x : float) (n : Z) : float :=
  (x * int_to_float64 n)%float.

Definition py_float_div_int (x : float) (n : Z) : result float :=
  if (n =? 0)%Z then Raise ZeroDivisionError
  else Ok (x / int_to_float64 n)%float.

Definition round_half_even (num den : Z) : Z :=
  let q := (num / den)%Z in
  let r := (num mod den)%Z in
  match (2 * r ?= den)%Z with
  | Lt => q
  | Gt => (q + 1)%Z
  | Eq => if Z.even q then q else (q + 1)%Z
  end.

(** [round(x, ndigits)]: the decimal with [ndigits] places nearest to the
    exact value of [x] (ties to even), then the double nearest to it. *)
Definition py_round (x : float) (ndigits : nat) : float :=
  match Prim2SF x with
  | S754_finite s m e =>
      let p := (10 ^ Z.of_nat ndigits)%Z in
      let h :=
        match e with
        | Zneg k => round_half_even (Z.pos m * p) (2 ^ Z.pos k)
        | _ => (Z.pos m * 2 ^ e * p)%Z
        end in
      match h with
      | Zpos hp =>
          SF2Prim (SFdiv prec emax (S754_finite s hp 0) (S754_finite false (Z.to_pos p) 0))
      | _ => if s then neg_zero else zero
      end
  | _ => x
  end.

Section Validation.

(** [pd.to_datetime(s, errors="coerce")] on one cell, as nanoseconds since
    the epoch; [None] is [NaT].  The second is the call with [utc=True].
    pandas settles on one format for a column, so the cells are parsed one
    by one only in a column written in one format, as ingestion writes
    [trade_date] (YYYY-MM-DD) and [trade_ts] (ISO 8601, UTC). *)
Variable to_datetime : string -> option Z.
Variable to_datetime_utc : string -> option Z.

Definition ns_per_day : Z := 86400000000000%Z.

(** [ts.dt.date], kept as the instant of its midnight. *)
Definition dt_date (ts : Z) : Z := (ts / ns_per_day * ns_per_day)%Z.

Definition parse (f : string -> option Z) (x : option string) : option Z :=
  match x with
  | Some s => f s
  | None => None
  end.

Definition bad_order (r : Row) : bool :=
  match parse to_datetime (trade_date (base r)),
        parse to_datetime_utc (trade_ts (base r)) with
  | Some tdate, Some tts => (dt_date tts <? tdate)%Z
  | _, _ => false
  end.

Definition rule_timestamp_sanity (df : Frame) : list Breach :=
  let idx := [] in
  let idx :=
    if has_column "trade_date" (columns df) && has_column "trade_ts" (columns df) then
      index_union idx (index_where (List.map bad_order (rows df)))
    else idx in
  _breaches_df "R005_TS_SANITY" "MEDIUM" "trade_ts must be on/after trade_date" idx df.

Definition rules : list (Frame -> list Breach) :=
  [ rule_mandatory;
    rule_domain_enums;
    rule_numeric_positive;
    rule_identifier_format;
    rule_timestamp_sanity;
    rule_notional_consistency;
    rule_duplicate_keys ].

(** The body of [run_all_rules] for a given battery. *)
Definition run_rules (battery : list (Frame -> list Breach)) (df : Frame) : list Breach :=
  let out := List.map (fun r => r df) battery in
  let out := List.filter (fun o => 0 <? length o) out in
  match out with
  | [] => _breaches_df "NA" "NA" "NA" [] df
  | _ => concat out
  end.

Definition run_all_rules (df : Frame) : list Breach := run_rules rules df.

(* ================================================================ *)
(** ** Validation ([p03_validation/validator.py]) *)

Record Metrics : Type := mkMetrics {
  input_rows : nat;
  passed_rows : nat;
  failed_rows : nat;
  breach_count : nat;
  pass_rate_pct : float
}.

(** What a run produces: the rows kept with their labels, the breach
    ledger and the metrics.  File names and the run's time stamp are left
    out. *)
Record RunResult : Type := mkRunResult {
  df_passed : list (nat * Row);
  df_failed : list (nat * Row);
  breaches : list Breach;
  metrics : Metrics
}.

(** [df.loc[mask]], the rows with their labels. *)
Definition loc_rows (mask : list bool) (df : Frame) : list (nat * Row) :=
  List.map snd (List.filter fst (combine mask (combine (index df) (rows df)))).

Definition failed_index (breaches : list Breach) : gset nat :=
  if 0 <? length breaches then list_to_set (List.map row_index breaches) else ∅.

Definition passed_mask (df : Frame) (failed_idx : gset nat) : list bool :=
  List.map (fun i => negb (bool_decide (i ∈ failed_idx))) (index df).

(** The statements of [run_validation] after the rules have run. *)
Definition validate_with (breaches : list Breach) (df_enriched : Frame) : result RunResult :=
  let failed_idx := failed_index breaches in
  let passed_mask := passed_mask df_enriched failed_idx in
  let df_passed := loc_rows passed_mask df_enriched in
  let df_failed := loc_rows (List.map negb passed_mask) df_enriched in
  let* rate :=
    py_float_div_int
      (py_float_mul_int 100 (Z.of_nat (length df_passed)))
      (Z.max 1 (Z.of_nat (length (rows df_enriched)))) in
  let metrics :=
    mkMetrics (length (rows df_enriched)) (length df_passed) (length df_failed)
              (length breaches) (py_round rate 2) in
  Ok (mkRunResult df_passed df_failed breaches metrics).

Definition run_validation (df_enriched : Frame) : result RunResult :=
  let breaches := run_all_rules df_enriched in
  validate_with breaches df_enriched.

End Validation.

(* ================================================================== *)
(** ** Reference statements the code is compared with *)

(** The threshold step of the liquidity derivation, as the specification
    words it. *)
Definition threshold_bucket (it : option string) (n : float) : option string :=
  match it with
  | None => None
  | Some ty =>
      if float_isna n then None
      else if String.eqb ty "BOND" then
        if (5000000 <=? n)%float then Some "HIGH"
        else if (1000000 <=? n)%float then Some "MED"
        else Some "LOW"
      else if String.eqb ty "SWAP" || String.eqb ty "FUTURE"
              || String.eqb ty "OPTION" || String.eqb ty "REPO" then
        if (10000000 <=? n)%float then Some "HIGH"
        else if (2000000 <=? n)%float then Some "MED"
        else Some "LOW"
      else None
  end.

(** The three steps in their order of precedence. *)
Definition liquidity_precedence (r : Row) : option string :=
  match liquidity_bucket (base r) with
  | Some b => Some b
  | None =>
      match liq_rule_key r with
      | Some k => Some k
      | None => threshold_bucket (instrument_type (base r)) (notional (base r))
      end
  end.

(** The columns of a canonical record that enrichment never writes. *)
Definition row_identity (t : Trade) :=
  (trade_id t, order_id t, client_id t, isin t, cusip t, side t, quantity t,
   price t, trade_date t, trade_ts t, currency t, venue t, desk t, source_system t).

(** Every row of [left] has at most one partner in [right]. *)
Definition unique_match {L R : Type}
    (left_on : L -> option string) (right_on : R -> option string)
    (left : list L) (right : list R) : bool :=
  forallb
    (fun l => length (List.filter (fun r => key_eq (left_on l) (right_on r)) right) <=? 1)
    left.

(** The rows that take the CUSIP fallback. *)
Definition needs_cusip (t : Trade) : bool := isna (symbol t) && notna (cusip t).

(** A row with a null in one of the mandatory columns. *)
Definition mandatory_null (r : Row) : bool :=
  let t := base r in
  isna (trade_id t) || isna (order_id t) || isna (client_id t) || isna (side t)
  || isna (quantity t) || float_isna (price t) || isna (trade_ts t)
  || isna (instrument_type t).

(** Each rule run on its own through the engine, the results concatenated. *)
Definition run_separately (battery : list (Frame -> list Breach)) (df : Frame)
  : list Breach :=
  concat (List.map (fun r => run_rules [r] df) battery).

(** Sample data used in the examples below. *)
Definition sample_trade : Trade :=
  mkTrade (Some "T1") (Some "O1") (Some "C1") (Some "US0378331005") None None
          (Some "BUY") (Some 10%Z) 2.5%float (Some "2024-01-02")
          (Some "2024-01-02T10:00:00Z") (Some "USD") (Some "XNAS") None None
          (Some "EQ1") (Some "OMS") None None nan.

Definition sample_product : Product :=
  mkProduct (Some "US0378331005") (Some "037833100") (Some "AAPL") (Some "BOND") None.

Definition sample_clients : ClientMaster :=
  mkClientMaster ["customerID"; "risk_tier"; "region"]
                 [mkClient (Some "C1") (Some "LOW") (Some "EMEA")].

(** An enriched row is an input row with some of the derived columns
    rewritten. *)
Definition from_input (df : list Trade) (r : Row) : Prop :=
  exists t, In t df /\ row_identity (base r) = row_identity t.

(** The notional of a row is the float product of its quantity and price. *)
Definition notional_is_product (r : Row) : Prop :=
  notional (base r) = (astype_float64 (quantity (base r)) * price (base r))%float.

(** More sample data: a second listing under the same ISIN, a second
    entry under the same CUSIP, a client listed twice, a trade that takes
    the CUSIP fallback and one with a supplied notional but no quantity. *)
Definition sample_product_dual : Product :=
  mkProduct (Some "US0378331005") None (Some "AAPL.DE") (Some "BOND") None.

Definition sample_product_same_cusip : Product :=
  mkProduct None (Some "037833100") (Some "APC") (Some "BOND") None.

Definition sample_clients_twice : ClientMaster :=
  mkClientMaster ["customerID"; "risk_tier"; "region"]
                 [mkClient (Some "C1") (Some "LOW") (Some "EMEA");
                  mkClient (Some "C1") (Some "HIGH") (Some "APAC")].

Definition sample_trade_cusip : Trade :=
  mkTrade (Some "T2") (Some "O2") (Some "C1") None (Some "037833100") None
          (Some "BUY") (Some 10%Z) 2.5%float (Some "2024-01-02")
          (Some "2024-01-02T10:00:00Z") (Some "USD") None None None None None
          None None nan.

Definition sample_trade_supplied : Trade :=
  mkTrade (Some "T3") (Some "O3") (Some "C1") (Some "US0378331005") None None
          (Some "SELL") (Some 4%Z) 1.5%float (Some "2024-01-02")
          (Some "2024-01-02T11:00:00Z") (Some "USD") None (Some "BOND") None None None
          None None 999%float.

Definition sample_trade_no_quantity : Trade :=
  mkTrade (Some "T4") (Some "O4") (Some "C1") (Some "US0378331005") None None
          (Some "SELL") None 1.5%float (Some "2024-01-02")
          (Some "2024-01-02T11:00:00Z") (Some "USD") None (Some "BOND") None None None
          None None 999%float.

Definition sample_batch : list Trade :=
  [sample_trade; sample_trade_cusip; sample_trade_supplied; sample_trade_no_quantity].

Definition sample_enriched : Frame :=
  Eval vm_compute in
    match run_enrichment sample_batch [sample_product] sample_clients with
    | Ok out => out
    | Raise _ => mkFrame [] []
    end.

(** A product table with a second entry, whose CUSIP has a letter: its
    [cusip] column is read as text. *)
Definition sample_product_alnum : Product :=
  mkProduct (Some "US38259P5089") (Some "38259P508") (Some "GOOG") (Some "SWAP")
            (Some "MED").

Definition sample_reference : list Product := [sample_product; sample_product_alnum].

Definition sample_trade_hinted : Trade :=
  mkTrade (Some "T5") (Some "O5") (Some "C2") (Some "US38259P5089") None None
          (Some "BUY") (Some 3%Z) 100%float (Some "2024-01-03")
          (Some "2024-01-03T09:30:00Z") (Some "USD") None None None None None
          None None nan.

Definition sample_trade_alnum : Trade :=
  mkTrade (Some "T6") (Some "O6") (Some "C1") None (Some "38259P508") None
          (Some "SELL") (Some 7%Z) 0.5%float (Some "2024-01-03")
          (Some "2024-01-03T09:45:00Z") (Some "EUR") None (Some "BOND") None None None
          None None 1%float.

Definition sample_late : list Trade := [sample_trade_hinted; sample_trade_alnum].

Definition sample_day : list Trade := sample_batch ++ sample_late.

Definition sample_early_enriched : Frame :=
  Eval vm_compute in
    match run_enrichment sample_batch sample_reference sample_clients with
    | Ok out => out
    | Raise _ => mkFrame [] []
    end.

Definition sample_late_enriched : Frame :=
  Eval vm_compute in
    match run_enrichment sample_late sample_reference sample_clients with
    | Ok out => out
    | Raise _ => mkFrame [] []
    end.

Definition sample_day_enriched : Frame :=
  Eval vm_compute in
    match run_enrichment sample_day sample_reference sample_clients with
    | Ok out => out
    | Raise _ => mkFrame [] []
    end.

Definition sample_day_products : list Row :=
  Eval vm_compute in
    match _enrich_product sample_day sample_reference with
    | Ok out => out
    | Raise _ => []
    end.

(** ** Row predicates the other rules are compared with *)

(** A non-null value outside its enumeration. *)
Definition bad_enum (x : option string) (allowed : gset string) : bool :=
  match x with
  | Some v => negb (bool_decide (v ∈ allowed))
  | None => false
  end.

Definition enum_violation (cols : list string) (r : Row) : bool :=
  has_column "side" cols && bad_enum (side (base r)) ENUM_SIDE
  || has_column "instrument_type" cols
     && bad_enum (instrument_type (base r)) ENUM_INSTRUMENT
  || has_column "currency" cols && bad_enum (currency (base r)) ENUM_CCY.

Definition not_positive (cols : list string) (r : Row) : bool :=
  has_column "quantity" cols && int_le0 (quantity (base r))
  || has_column "price" cols && (price (base r) <=? 0)%float.

Definition bad_identifier (cols : list string) (r : Row) : bool :=
  has_column "isin" cols && bad_format _ISIN_RE (isin (base r))
  || has_column "cusip" cols && bad_format _CUSIP_RE (cusip (base r)).

(** The display string of the row labelled [i]. *)
Definition keys_of (df : Frame) (i : nat) : string :=
  "trade_id="
  +:+ (if has_column "trade_id" (columns df) then py_str (at_ df i trade_id) else "NA")
  +:+ "|order_id="
  +:+ (if has_column "order_id" (columns df) then py_str (at_ df i order_id) else "NA").

(** The seven rule codes with their severities. *)
Definition rule_codes : list (string * string) :=
  [ ("R001_MANDATORY", "CRITICAL"); ("R002_ENUMS", "HIGH"); ("R003_POSITIVE", "HIGH");
    ("R004_ID_FORMAT", "MEDIUM"); ("R005_TS_SANITY", "MEDIUM"); ("R006_NOTIONAL", "LOW");
    ("R007_DUPLICATES", "CRITICAL") ].

(** Two rows collide on a key of R007. *)
Definition shares_key (cols : list string) (r r' : Row) : bool :=
  has_column "trade_id" cols && key_eq (trade_id (base r)) (trade_id (base r'))
  || forallb (fun c => has_column c cols) ["order_id"; "trade_ts"; "quantity"; "price"]
     && soft_key_eq (soft_key r) (soft_key r').

(** Labels of a batch of [n] rows: ascending, each once, each below [n]. *)
Definition labels (n : nat) (idx : list nat) : Prop :=
  StronglySorted lt idx /\ Forall (fun i => i < n) idx.

(** ** Enrichment read row by row *)

(** The first partner of a key in a reference table. *)
Definition partner {R : Type} (key : option string) (right_on : R -> option string)
    (right : list R) : option R :=
  List.find (fun r => key_eq key (right_on r)) right.

(** What [_enrich_product] makes of one row when its keys have one partner
    at most. *)
Definition resolve_product (pm : list Product) (t : Trade) : Row :=
  let r := product_join t (partner (isin t) pm_isin pm) in
  let r :=
    if needs_cusip t
    then set_cusip_values (cusip_join t (partner (cusip t) pm_cusip pm)) r
    else r in
  let r :=
    map_base
      (set_instrument_type
         (match instrument_type (base r) with
          | Some x => Some x
          | None => instrument_type t
          end)) r in
  map_base
    (set_symbol
       (match symbol (base r) with
        | Some x => Some x
        | None => symbol t
        end)) r.

Definition resolve_client (df_cols : list string) (cm : ClientMaster) (r : Row) : Row :=
  if has_column "customerID" (cm_columns cm)
  then client_join df_cols (cm_columns cm) r
         (partner (client_id (base r)) customerID (cm_rows cm))
  else map_base (fun t => set_region None (set_risk_tier None t)) r.

Definition enrich_row (pm : list Product) (cm : ClientMaster) (t : Trade) : Row :=
  let r := resolve_client (product_columns CANONICAL_ORDER) cm (resolve_product pm t) in
  let r :=
    map_base (set_notional (astype_float64 (quantity (base r)) * price (base r))%float) r in
  map_base (set_liquidity_bucket (liquidity_precedence r)) r.

(** The columns of an enriched batch; they depend on the client table's
    header alone. *)
Definition enriched_columns (cm : ClientMaster) : list string :=
  let cols :=
    columns (_enrich_client (mkFrame (product_columns CANONICAL_ORDER) []) cm) in
  if has_column "liq_rule_key" cols then drop_column "liq_rule_key" cols else cols.

(** The three conditions under which every row has one partner at most. *)
Definition unique_partners (df : list Trade) (pm : list Product) (cm : ClientMaster)
  : bool :=
  unique_match isin pm_isin df pm
  && unique_match cusip pm_cusip (List.filter needs_cusip df) pm
  && (negb (has_column "customerID" (cm_columns cm))
      || unique_match client_id customerID df (cm_rows cm)).

(** ** The condition of each rule on one row of a batch *)

Definition mandatory_flag (df : Frame) (r : Row) : bool :=
  if forallb (fun c => has_column c (columns df)) required
  then mandatory_null r
  else true.

Definition notional_inconsistent (cols : list string) (r : Row) : bool :=
  forallb (fun c => has_column c cols) ["quantity"; "price"; "notional"]
  && (notna (quantity (base r)) && float_notna (price (base r))
      && float_notna (notional (base r))
      && (tolerance
          <? abs (notional (base r)
                  - astype_float64 (quantity (base r)) * price (base r)))%float).

Definition duplicate_in (df : Frame) (r : Row) : bool :=
  has_column "trade_id" (columns df)
  && (2 <=? length (List.filter (key_eq (trade_id (base r)))
                      (List.map (fun r' => trade_id (base r')) (rows df))))
  || forallb (fun c => has_column c (columns df))
       ["order_id"; "trade_ts"; "quantity"; "price"]
     && (2 <=? length (List.filter (soft_key_eq (soft_key r))
                         (List.map soft_key (rows df)))).

(** A row that at least one of the seven rules flags. *)
Definition flagged (to_datetime to_datetime_utc : string -> option Z)
    (df : Frame) (r : Row) : bool :=
  mandatory_flag df r
  || enum_violation (columns df) r
  || not_positive (columns df) r
  || bad_identifier (columns df) r
  || has_column "trade_date" (columns df) && has_column "trade_ts" (columns df)
     && bad_order to_datetime to_datetime_utc r
  || notional_inconsistent (columns df) r
  || duplicate_in df r.

(* ================================================================== *)
(** * Properties *)

(** ** float64 facts *)

Lemma SFeqb_refl_not_nan (f : spec_float) : f <> S754_nan -> SFeqb f f = true.
Proof.
  intros Hf. unfold SFeqb, SFcompare.
  destruct f as [s | s | | s m e]; [reflexivity | destruct s; reflexivity | congruence | ].
  destruct s; rewrite Z.compare_refl; simpl; rewrite ?Pos.compare_cont_refl; reflexivity.
Qed.

Lemma float_isna_spec (x : float) : float_isna x = true <-> Prim2SF x = S754_nan.
Proof.
  unfold float_isna, is_nan. rewrite FloatAxioms.eqb_spec. split.
  - intros H. destruct (Prim2SF x) eqn:E; try reflexivity;
      rewrite SFeqb_refl_not_nan in H by discriminate; discriminate.
  - intros ->. reflexivity.
Qed.

Lemma float_isna_mul_l (x y : float) :
  float_isna x = true -> float_isna (x * y)%float = true.
Proof.
  rewrite !float_isna_spec, mul_spec. intros ->. reflexivity.
Qed.

Lemma float_isna_mul_r (x y : float) :
  float_isna y = true -> float_isna (x * y)%float = true.
Proof.
  rewrite !float_isna_spec, mul_spec. intros ->.
  unfold SF64mul, SFmul. destruct (Prim2SF x); reflexivity.
Qed.

Lemma SFsub_diag (f : spec_float) :
  SF64sub f f = S754_nan \/ SF64sub f f = S754_zero false.
Proof.
  unfold SF64sub, SFsub. destruct f as [s | s | | s m e].
  - right. destruct s; reflexivity.
  - left. destruct s; reflexivity.
  - left. reflexivity.
  - right. rewrite Z.sub_diag. reflexivity.
Qed.

(** A float differs from itself by nothing the tolerance can see: the
    difference is zero, or NaN when the float is infinite or NaN. *)
Lemma diff_within_tolerance (x : float) : (tolerance <? abs (x - x))%float = false.
Proof.
  rewrite ltb_spec, abs_spec, sub_spec.
  destruct (SFsub_diag (Prim2SF x)) as [-> | ->]; reflexivity.
Qed.

(** ** Series and masks *)

Lemma assign_aligned_map {A B : Type} (m : A -> bool) (v s : A -> B) (l : list A) :
  assign_aligned (List.map m l) (List.map v l) (List.map s l)
  = List.map (fun a => if m a then v a else s a) l.
Proof.
  induction l as [| a l IH]; simpl; [reflexivity | now rewrite IH].
Qed.

Lemma any_map_false {A : Type} (m : A -> bool) (l : list A) :
  any (List.map m l) = false -> forall a, In a l -> m a = false.
Proof.
  unfold any. induction l as [| a l IH]; simpl; intros H x Hx; [contradiction |].
  apply orb_false_iff in H as [Ha Hl]. destruct Hx as [<- | Hx]; [exact Ha | now apply IH].
Qed.

Lemma set_column_map {A V : Type} (set : V -> A -> A) (g : A -> V) (l : list A) :
  set_column set (List.map g l) l = List.map (fun a => set (g a) a) l.
Proof.
  induction l as [| a l IH]; simpl; [reflexivity | now rewrite IH].
Qed.

(** A property every setter keeps is kept by a column assignment. *)
Lemma set_column_Forall {A V : Type} (P : A -> Prop) (set : V -> A -> A)
    (vals : list V) (l : list A) :
  (forall v a, P a -> P (set v a)) -> Forall P l -> Forall P (set_column set vals l).
Proof.
  intros Hset. revert vals. induction l as [| a l IH]; intros [| v vals] Hl; simpl;
    try exact Hl.
  inversion Hl; subst. constructor; [now apply Hset | now apply IH].
Qed.

(** ** The liquidity bucket *)

Lemma rule_threshold (it : option string) (n : float) :
  rule it n = threshold_bucket it n.
Proof.
  unfold rule, threshold_bucket. destruct it as [ty |]; [| reflexivity].
  simpl. destruct (float_isna n); [reflexivity |].
  destruct (String.eqb_spec ty "BOND") as [-> | Hb]; [reflexivity |].
  rewrite bool_decide_eq_false_2 by congruence.
  destruct (String.eqb_spec ty "SWAP") as [-> | H1]; [reflexivity |].
  destruct (String.eqb_spec ty "FUTURE") as [-> | H2]; [reflexivity |].
  destruct (String.eqb_spec ty "OPTION") as [-> | H3]; [reflexivity |].
  destruct (String.eqb_spec ty "REPO") as [-> | H4]; [reflexivity |].
  rewrite bool_decide_eq_false_2; [reflexivity |].
  rewrite !elem_of_cons, elem_of_nil. intros [E | [E | [E | [E | []]]]]; congruence.
Qed.

Lemma fill_liquidity_rows (df : Frame) :
  rows (_fill_liquidity df)
  = List.map (fun r => map_base (set_liquidity_bucket (liquidity_precedence r)) r) (rows df).
Proof.
  unfold _fill_liquidity. cbn [rows].
  set (l := rows df).
  rewrite (assign_aligned_map
             (fun r => isna (liquidity_bucket (base r)) && notna (liq_rule_key r))
             liq_rule_key (fun r => liquidity_bucket (base r)) l).
  rewrite List.map_map.
  set (filled1 := fun r : Row =>
         if isna (liquidity_bucket (base r)) && notna (liq_rule_key r)
         then liq_rule_key r else liquidity_bucket (base r)).
  match goal with
  | |- set_column _ ?F _ = _ =>
      assert (Hfilled : F = List.map (fun r => liquidity_precedence r) l)
  end.
  { destruct (any _) eqn:Hany.
    - rewrite assign_aligned_map. apply List.map_ext. intros r.
      unfold filled1, liquidity_precedence. rewrite rule_threshold.
      destruct (liquidity_bucket (base r)), (liq_rule_key r); reflexivity.
    - apply List.map_ext_in. intros r Hr.
      pose proof (any_map_false _ _ Hany r Hr) as Hna.
      unfold filled1, liquidity_precedence in *.
      destruct (liquidity_bucket (base r)), (liq_rule_key r); simpl in *;
        try reflexivity; discriminate. }
  rewrite Hfilled.
  exact (set_column_map (fun v => map_base (set_liquidity_bucket v)) liquidity_precedence l).
Qed.

(** C2: the liquidity bucket of every row follows the precedence of the
    specification ([liquidity_precedence]): an existing bucket is kept, else
    the product hint [liq_rule_key] is adopted, else the thresholds of the
    instrument type apply to the notional (BOND 5,000,000 / 1,000,000, the
    four other types 10,000,000 / 2,000,000) and anything else stays null.
    A BOND row without bucket or hint gets HIGH at a notional of exactly
    5,000,000 and MED at 4,999,999.99 (the double nearest to it is
    0x1.312cfff5c28f6p+22). *)
Theorem fill_liquidity_precedence (df : Frame) :
  rows (_fill_liquidity df)
  = List.map (fun r => map_base (set_liquidity_bucket (liquidity_precedence r)) r) (rows df)
  /\ columns (_fill_liquidity df) = columns df
  /\ (forall (cols : list string) (r : Row),
        liquidity_bucket (base r) = None -> liq_rule_key r = None ->
        instrument_type (base r) = Some "BOND" ->
        (notional (base r) = 5000000%float ->
         List.map (fun r' => liquidity_bucket (base r')) (rows (_fill_liquidity (mkFrame cols [r])))
         = [Some "HIGH"])
        /\ (notional (base r) = 0x1.312cfff5c28f6p+22%float ->
            List.map (fun r' => liquidity_bucket (base r')) (rows (_fill_liquidity (mkFrame cols [r])))
            = [Some "MED"])).
Proof.
  split; [apply fill_liquidity_rows |].
  split; [reflexivity |].
  intros cols r Hb Hk Hit.
  split; intros Hn; rewrite fill_liquidity_rows; cbn [rows List.map map_base base
    set_liquidity_bucket liquidity_bucket]; unfold liquidity_precedence;
    rewrite Hb, Hk, Hit, Hn; reflexivity.
Qed.

(** ** Left merges *)

Lemma merge_left_Forall2 {L R O : Type}
    (left_on : L -> option string) (right_on : R -> option string)
    (join : L -> option R -> O) (left : list L) (right : list R) :
  unique_match left_on right_on left right = true ->
  Forall2 (fun l o => exists m, o = join l m) left
          (merge_left left_on right_on join left right).
Proof.
  unfold unique_match, merge_left. induction left as [| l left IH]; simpl; intros H.
  - constructor.
  - apply andb_true_iff in H as [Hl Hrest]. apply Nat.leb_le in Hl.
    destruct (List.filter _ right) as [| r [| r' rest]]; simpl in *.
    + constructor; [now exists None | now apply IH].
    + constructor; [now exists (Some r) | now apply IH].
    + lia.
Qed.

Lemma Forall2_compose {A B C : Type} (R : A -> B -> Prop) (S : B -> C -> Prop)
    (T : A -> C -> Prop) (la : list A) (lb : list B) (lc : list C) :
  (forall a b c, R a b -> S b c -> T a c) ->
  Forall2 R la lb -> Forall2 S lb lc -> Forall2 T la lc.
Proof.
  intros H HR. revert lc. induction HR as [| a b la lb Hab _ IH]; intros lc HS;
    inversion HS; subst; constructor; eauto.
Qed.

Lemma Forall2_map_r {A B : Type} (R : A -> B -> Prop) (g : B -> B)
    (la : list A) (lb : list B) :
  (forall a b, R a b -> R a (g b)) ->
  Forall2 R la lb -> Forall2 R la (List.map g lb).
Proof.
  intros H HR. induction HR; simpl; constructor; auto.
Qed.

Lemma Forall2_map_eq {A B : Type} (f : B -> A) (la : list A) (lb : list B) :
  Forall2 (fun a b => f b = a) la lb -> List.map f lb = la.
Proof.
  induction 1; simpl; congruence.
Qed.

Lemma unique_match_transport {L L' R : Type}
    (k : L -> option string) (k' : L' -> option string) (rk : R -> option string)
    (l : list L) (l' : list L') (right : list R) :
  Forall2 (fun a b => k' b = k a) l l' ->
  unique_match k rk l right = true -> unique_match k' rk l' right = true.
Proof.
  unfold unique_match. induction 1 as [| a b l l' Hab _ IH]; simpl; [reflexivity |].
  rewrite !andb_true_iff. intros [Ha Hl]. rewrite Hab. auto.
Qed.

Lemma loc_mask_map {A : Type} (f : A -> bool) (l : list A) :
  loc_mask (List.map f l) l = List.filter f l.
Proof.
  unfold loc_mask. rewrite firstn_all2 by (rewrite length_map; lia).
  induction l as [| a l IH]; simpl; [reflexivity |].
  destruct (f a); simpl; now rewrite IH.
Qed.

Lemma count_true_map {A : Type} (f : A -> bool) (l : list A) :
  count_true (List.map f l) = length (List.filter f l).
Proof.
  unfold count_true. induction l as [| a l IH]; simpl; [reflexivity |].
  unfold id at 1. destruct (f a); simpl; [f_equal |]; exact IH.
Qed.

Lemma assign_values_Forall2 {T A V : Type} (R : T -> A -> Prop) (set : V -> A -> A)
    (mask : list bool) (vals : list V) (lt : list T) (la : list A) :
  (forall v t a, R t a -> R t (set v a)) ->
  Forall2 R lt la -> Forall2 R lt (assign_values set mask vals la).
Proof.
  intros Hset HR. revert mask vals.
  induction HR as [| t a lt la Hta HR IH]; intros mask vals.
  - destruct mask as [| [] mask]; constructor.
  - destruct mask as [| [] mask]; simpl.
    + now constructor.
    + destruct vals as [| v vals]; constructor; auto.
    + constructor; auto.
Qed.

Lemma set_column_Forall2 {T A V : Type} (R : T -> A -> Prop) (set : V -> A -> A)
    (vals : list V) (lt : list T) (la : list A) :
  (forall v t a, R t a -> R t (set v a)) ->
  Forall2 R lt la -> Forall2 R lt (set_column set vals la).
Proof.
  intros Hset HR. revert vals.
  induction HR as [| t a lt la Hta HR IH]; intros [| v vals]; simpl;
    constructor; auto.
Qed.

(** ** Enrichment keeps the batch when every key has one partner at most *)

Lemma enrich_product_identity (df : list Trade) (pm : list Product) (out : list Row) :
  unique_match isin pm_isin df pm = true ->
  _enrich_product df pm = Ok out ->
  Forall2 (fun t r => row_identity (base r) = row_identity t) df out.
Proof.
  intros H1. unfold _enrich_product.
  pose proof (merge_left_Forall2 isin pm_isin product_join df pm H1) as F0.
  set (out0 := merge_left isin pm_isin product_join df pm) in *.
  assert (R0 : Forall2 (fun t r => row_identity (base r) = row_identity t) df out0).
  { eapply Forall2_impl; [exact F0 |]. intros t r [m ->]. reflexivity. }
  set (need_cusip := List.map _ out0).
  assert (Hstep : forall out1,
    (if any need_cusip
     then loc_assign set_cusip_values need_cusip
            (merge_left cusip pm_cusip cusip_join (loc_mask need_cusip df) pm) out0
     else Ok out0) = Ok out1 ->
    Forall2 (fun t r => row_identity (base r) = row_identity t) df out1).
  { intros out1. destruct (any need_cusip).
    - unfold loc_assign.
      destruct (Nat.eqb _ _); [| destruct (merge_left cusip _ _ _ _) as [| v [| v' vs]]];
        try discriminate;
        (intros [= <-]; apply assign_values_Forall2; [| exact R0];
         intros [[sym ity] lrk] t a Ha; exact Ha).
    - intros [= <-]. exact R0. }
  destruct (if any need_cusip then _ else _) as [out1 | e]; simpl; [| discriminate].
  intros [= <-].
  apply set_column_Forall2; [intros v t a Ha; exact Ha |].
  apply set_column_Forall2; [intros v t a Ha; exact Ha |].
  now apply Hstep.
Qed.

Lemma enrich_client_identity (df : list Trade) (fr : Frame) (cm : ClientMaster) :
  (has_column "customerID" (cm_columns cm) = true ->
   unique_match client_id customerID df (cm_rows cm) = true) ->
  Forall2 (fun t r => row_identity (base r) = row_identity t) df (rows fr) ->
  Forall2 (fun t r => row_identity (base r) = row_identity t) df
          (rows (_enrich_client fr cm)).
Proof.
  intros H3 R. unfold _enrich_client.
  destruct (has_column "customerID" (cm_columns cm)) eqn:Hc; cbn [rows].
  - eapply Forall2_compose; [| exact R |].
    2: { apply merge_left_Forall2.
         eapply unique_match_transport; [| exact (H3 eq_refl)].
         eapply Forall2_impl; [exact R |]. intros t r Hr.
         unfold row_identity in Hr. congruence. }
    intros t r o Hr [m ->]. rewrite <- Hr. reflexivity.
  - apply Forall2_map_r; [| exact R]. intros t r Hr. exact Hr.
Qed.

(** ** What the merge on ISIN leaves in [symbol] and [instrument_type] *)

Lemma assign_values_mask_Forall2 {T A V : Type} (m : T -> bool)
    (R R' : T -> A -> Prop) (set : V -> A -> A)
    (vals : list V) (lt : list T) (la : list A) :
  (forall t a, R t a -> m t = false -> R' t a) ->
  (forall t a, m t = true -> R' t a) ->
  Forall2 R lt la -> Forall2 R' lt (assign_values set (List.map m lt) vals la).
Proof.
  intros Hkeep Hany HR. revert vals.
  induction HR as [| t a lt la Hta HR IH]; intros vals; simpl; [constructor |].
  destruct (m t) eqn:Hm.
  - destruct vals as [| v vals].
    + constructor; [now apply Hany |].
      eapply Forall2_impl; [exact HR |]. intros t' a' Ht'.
      destruct (m t') eqn:Hm'; [now apply Hany | now apply Hkeep].
    + constructor; [now apply Hany | apply IH].
  - constructor; [now apply Hkeep | apply IH].
Qed.

Lemma set_column_combine_first_Forall2 {T A B : Type} (R R' : T -> A -> Prop)
    (set : option B -> A -> A) (f : A -> option B) (g : T -> option B)
    (lt : list T) (la : list A) :
  (forall t a, R t a ->
     R' t (set (match f a with Some x => Some x | None => g t end) a)) ->
  Forall2 R lt la ->
  Forall2 R' lt (set_column set (combine_first (List.map f la) (List.map g lt)) la).
Proof.
  intros H HR. induction HR as [| t a lt la Hta HR IH]; simpl; [constructor |].
  constructor; [| exact IH]. specialize (H t a Hta).
  destruct (f a); exact H.
Qed.

(** With one partner at most per key, a row that does not take the CUSIP
    fallback leaves [_enrich_product] with the symbol and the instrument
    type it came with, whatever the product table holds for its ISIN. *)
Lemma enrich_product_keeps_own_values (df : list Trade) (pm : list Product)
    (out : list Row) :
  unique_match isin pm_isin df pm = true ->
  unique_match cusip pm_cusip (List.filter needs_cusip df) pm = true ->
  _enrich_product df pm = Ok out ->
  Forall2
    (fun t r =>
       needs_cusip t = false ->
       symbol (base r) = symbol t /\ instrument_type (base r) = instrument_type t)
    df out.
Proof.
  intros H1 H2 Hout.
  cut (exists out',
         _enrich_product df pm = Ok out'
         /\ Forall2
              (fun t r =>
                 needs_cusip t = false ->
                 symbol (base r) = symbol t /\ instrument_type (base r) = instrument_type t)
              df out').
  { intros (out' & E & F). rewrite E in Hout. injection Hout as <-. exact F. }
  clear Hout. unfold _enrich_product.
  pose proof (merge_left_Forall2 isin pm_isin product_join df pm H1) as F0.
  set (out0 := merge_left isin pm_isin product_join df pm) in *.
  assert (R0 : Forall2 (fun t r => base r = t) df out0).
  { eapply Forall2_impl; [exact F0 |]. intros t r [m ->]. reflexivity. }
  assert (Hmask : List.map (fun r => isna (symbol (base r)) && notna (cusip (base r))) out0
                  = List.map needs_cusip df).
  { rewrite <- (Forall2_map_eq base df out0 R0), List.map_map. reflexivity. }
  rewrite Hmask.
  assert (Hstep : exists out1,
    (if any (List.map needs_cusip df)
     then loc_assign set_cusip_values (List.map needs_cusip df)
            (merge_left cusip pm_cusip cusip_join (loc_mask (List.map needs_cusip df) df) pm)
            out0
     else Ok out0) = Ok out1
    /\ Forall2 (fun t r => needs_cusip t = false -> base r = t) df out1).
  { destruct (any _).
    - unfold loc_assign. rewrite loc_mask_map, count_true_map.
      pose proof (merge_left_Forall2 cusip pm_cusip cusip_join _ pm H2) as F1.
      apply Forall2_length in F1. rewrite <- F1, Nat.eqb_refl.
      eexists; split; [reflexivity |].
      apply (assign_values_mask_Forall2 needs_cusip (fun t r => base r = t)); [| | exact R0].
      + intros t a Ha _ _. exact Ha.
      + intros t a Hm Hm'. congruence.
    - exists out0. split; [reflexivity |].
      eapply Forall2_impl; [exact R0 |]. intros t r Hr _. exact Hr. }
  destruct Hstep as (out1 & -> & R1). simpl.
  eexists; split; [reflexivity |].
  apply (set_column_combine_first_Forall2
           (fun t r => needs_cusip t = false ->
                       symbol (base r) = symbol t
                       /\ instrument_type (base r) = instrument_type t)).
  { intros t r Hr Hn. destruct (Hr Hn) as [Hs Hi]. cbn. rewrite Hs.
    split; [destruct (symbol t); reflexivity | exact Hi]. }
  apply (set_column_combine_first_Forall2 (fun t r => needs_cusip t = false -> base r = t));
    [| exact R1].
  intros t r Hr Hn. specialize (Hr Hn). cbn. rewrite Hr.
  split; [reflexivity | destruct (instrument_type t); reflexivity].
Qed.

(** ** What every enriched row carries *)

Lemma merge_left_Forall {L R O : Type} (P : L -> Prop) (Q : O -> Prop)
    (left_on : L -> option string) (right_on : R -> option string)
    (join : L -> option R -> O) (left : list L) (right : list R) :
  (forall l m, P l -> Q (join l m)) ->
  Forall P left -> Forall Q (merge_left left_on right_on join left right).
Proof.
  intros HPQ. unfold merge_left. induction 1 as [| l left Hl _ IH]; simpl.
  - constructor.
  - apply List.Forall_app. split; [| exact IH].
    destruct (List.filter _ right) as [| r matches].
    + constructor; [now apply HPQ | constructor].
    + apply List.Forall_forall. intros o Ho.
      apply (proj1 (in_map_iff (fun r => join l (Some r)) (r :: matches) o)) in Ho
        as (r' & <- & _).
      now apply HPQ.
Qed.

Lemma assign_values_Forall {A V : Type} (P : A -> Prop) (set : V -> A -> A)
    (mask : list bool) (vals : list V) (l : list A) :
  (forall v a, P a -> P (set v a)) ->
  Forall P l -> Forall P (assign_values set mask vals l).
Proof.
  intros Hset Hl. revert mask vals.
  induction Hl as [| a l Ha Hl IH]; intros mask vals.
  - destruct mask as [| [] mask]; constructor.
  - destruct mask as [| [] mask]; simpl.
    + now constructor.
    + destruct vals as [| v vals]; constructor; auto.
    + constructor; auto.
Qed.

Lemma Forall_In_self {A : Type} (l : list A) : Forall (fun a => In a l) l.
Proof. apply List.Forall_forall. auto. Qed.

Lemma enrich_product_from_input (df : list Trade) (pm : list Product) (out : list Row) :
  _enrich_product df pm = Ok out -> Forall (from_input df) out.
Proof.
  unfold _enrich_product.
  assert (F0 : Forall (from_input df) (merge_left isin pm_isin product_join df pm)).
  { apply (merge_left_Forall (fun t => In t df)); [| apply Forall_In_self].
    intros t m Ht. exists t. split; [exact Ht | reflexivity]. }
  set (out0 := merge_left isin pm_isin product_join df pm) in *.
  set (need_cusip := List.map _ out0).
  assert (Hstep : forall out1,
    (if any need_cusip
     then loc_assign set_cusip_values need_cusip
            (merge_left cusip pm_cusip cusip_join (loc_mask need_cusip df) pm) out0
     else Ok out0) = Ok out1 -> Forall (from_input df) out1).
  { intros out1. destruct (any need_cusip).
    - unfold loc_assign.
      destruct (Nat.eqb _ _); [| destruct (merge_left cusip _ _ _ _) as [| v [| v' vs]]];
        try discriminate;
        (intros [= <-]; apply assign_values_Forall; [| exact F0];
         intros [[sym ity] lrk] a Ha; exact Ha).
    - intros [= <-]. exact F0. }
  destruct (if any need_cusip then _ else _) as [out1 | e]; simpl; [| discriminate].
  intros [= <-].
  apply set_column_Forall; [intros v a Ha; exact Ha |].
  apply set_column_Forall; [intros v a Ha; exact Ha |].
  now apply Hstep.
Qed.

Lemma enrich_client_from_input (df : list Trade) (fr : Frame) (cm : ClientMaster) :
  Forall (from_input df) (rows fr) ->
  Forall (from_input df) (rows (_enrich_client fr cm)).
Proof.
  intros H. unfold _enrich_client. destruct (has_column _ _); cbn [rows].
  - apply (merge_left_Forall (from_input df)); [| exact H]. intros r m Hr. exact Hr.
  - apply List.Forall_forall. intros r Hr. apply in_map_iff in Hr as (r0 & <- & Hr0).
    revert r0 Hr0. apply List.Forall_forall. exact H.
Qed.

Lemma run_enrichment_inv (df : list Trade) (pm : list Product) (cm : ClientMaster)
    (out : Frame) :
  run_enrichment df pm cm = Ok out ->
  exists out1,
    _enrich_product df pm = Ok out1
    /\ rows out
       = rows (_fill_liquidity (_derive_notional
                 (_enrich_client (mkFrame (product_columns CANONICAL_ORDER) out1) cm))).
Proof.
  unfold run_enrichment, bind. destruct (_enrich_product df pm) as [out1 | e];
    [| discriminate].
  intros [= <-]. exists out1. split; [reflexivity |].
  destruct (has_column "liq_rule_key" _); reflexivity.
Qed.

Lemma enriched_rows (df : list Trade) (pm : list Product) (cm : ClientMaster)
    (out : Frame) :
  run_enrichment df pm cm = Ok out ->
  Forall (fun r => from_input df r /\ notional_is_product r) (rows out).
Proof.
  intros H. apply run_enrichment_inv in H as (out1 & Hp & ->).
  apply enrich_product_from_input in Hp.
  rewrite fill_liquidity_rows. cbn [_derive_notional rows].
  set (fr := _enrich_client _ cm).
  assert (Hfr : Forall (from_input df) (rows fr)).
  { apply enrich_client_from_input. exact Hp. }
  apply List.Forall_forall. intros r Hr.
  apply in_map_iff in Hr as (r1 & <- & Hr1).
  apply in_map_iff in Hr1 as (r0 & <- & Hr0).
  split; [| reflexivity].
  revert r0 Hr0. apply List.Forall_forall. exact Hfr.
Qed.

(** ** Every input row reaches the result *)

Lemma merge_left_In {L R O : Type}
    (left_on : L -> option string) (right_on : R -> option string)
    (join : L -> option R -> O) (left : list L) (right : list R) (l : L) :
  In l left -> exists m, In (join l m) (merge_left left_on right_on join left right).
Proof.
  intros Hl. unfold merge_left.
  destruct (List.filter (fun r => key_eq (left_on l) (right_on r)) right)
    as [| r matches] eqn:E.
  - exists None. apply in_flat_map. exists l. split; [exact Hl |]. rewrite E. now left.
  - exists (Some r). apply in_flat_map. exists l. split; [exact Hl |]. rewrite E. now left.
Qed.

Lemma assign_values_keeps {A V K : Type} (k : A -> K) (set : V -> A -> A)
    (mask : list bool) (vals : list V) (l : list A) :
  (forall v a, k (set v a) = k a) ->
  List.map k (assign_values set mask vals l) = List.map k l.
Proof.
  intros Hset. revert mask vals. induction l as [| a l IH]; intros mask vals.
  - destruct mask as [| [] mask]; reflexivity.
  - destruct mask as [| [] mask]; simpl; [reflexivity | |].
    + destruct vals as [| v vals]; simpl; [reflexivity |]. now rewrite Hset, IH.
    + now rewrite IH.
Qed.

Lemma set_column_keeps {A V K : Type} (k : A -> K) (set : V -> A -> A)
    (vals : list V) (l : list A) :
  (forall v a, k (set v a) = k a) ->
  List.map k (set_column set vals l) = List.map k l.
Proof.
  intros Hset. revert vals.
  induction l as [| a l IH]; intros [| v vals]; simpl; try reflexivity.
  now rewrite Hset, IH.
Qed.

Lemma enrich_product_covers (df : list Trade) (pm : list Product) (out : list Row) :
  _enrich_product df pm = Ok out ->
  Forall (fun t => In (row_identity t) (List.map (fun r => row_identity (base r)) out)) df.
Proof.
  unfold _enrich_product.
  set (out0 := merge_left isin pm_isin product_join df pm).
  assert (C0 : Forall (fun t => In (row_identity t)
                                  (List.map (fun r => row_identity (base r)) out0)) df).
  { apply List.Forall_forall. intros t Ht.
    destruct (merge_left_In isin pm_isin product_join df pm t Ht) as [m Hm].
    apply (in_map (fun r => row_identity (base r))) in Hm. exact Hm. }
  set (need_cusip := List.map _ out0).
  assert (Hstep : forall out1,
    (if any need_cusip
     then loc_assign set_cusip_values need_cusip
            (merge_left cusip pm_cusip cusip_join (loc_mask need_cusip df) pm) out0
     else Ok out0) = Ok out1 ->
    List.map (fun r => row_identity (base r)) out1
    = List.map (fun r => row_identity (base r)) out0).
  { intros out1. destruct (any need_cusip).
    - unfold loc_assign.
      destruct (Nat.eqb _ _); [| destruct (merge_left cusip _ _ _ _) as [| v [| v' vs]]];
        try discriminate;
        (intros [= <-]; apply assign_values_keeps; intros [[sym ity] lrk] a; reflexivity).
    - intros [= <-]. reflexivity. }
  destruct (if any need_cusip then _ else _) as [out1 | e]; simpl; [| discriminate].
  intros [= <-].
  apply List.Forall_forall. intros t Ht.
  rewrite !set_column_keeps by (intros v a; reflexivity).
  rewrite (Hstep out1 eq_refl).
  revert t Ht. apply List.Forall_forall. exact C0.
Qed.

Lemma enrich_client_covers (fr : Frame) (cm : ClientMaster) (r : Row) :
  In r (rows fr) ->
  In (row_identity (base r))
     (List.map (fun r' => row_identity (base r')) (rows (_enrich_client fr cm))).
Proof.
  intros Hr. unfold _enrich_client. destruct (has_column "customerID" _); cbn [rows].
  - destruct (merge_left_In (fun r => client_id (base r)) customerID
                (client_join (columns fr) (cm_columns cm)) (rows fr) (cm_rows cm) r Hr)
      as [m Hm].
    apply (in_map (fun r' => row_identity (base r'))) in Hm. exact Hm.
  - rewrite List.map_map.
    apply (in_map (fun r' => row_identity (base r'))) in Hr. exact Hr.
Qed.

Lemma run_enrichment_covers (df : list Trade) (pm : list Product) (cm : ClientMaster)
    (out : Frame) :
  run_enrichment df pm cm = Ok out ->
  Forall
    (fun t => In (row_identity t) (List.map (fun r => row_identity (base r)) (rows out)))
    df.
Proof.
  intros H. apply run_enrichment_inv in H as (out1 & Hp & ->).
  apply enrich_product_covers in Hp.
  apply List.Forall_forall. intros t Ht.
  rewrite List.Forall_forall in Hp. specialize (Hp t Ht).
  apply in_map_iff in Hp as (r1 & E & Hr1).
  rewrite fill_liquidity_rows. cbn [_derive_notional rows]. rewrite !List.map_map.
  rewrite <- E.
  exact (enrich_client_covers (mkFrame (product_columns CANONICAL_ORDER) out1) cm r1 Hr1).
Qed.

(** * The specification's properties *)

(** C1 (the code departs from the specification): a row whose ISIN matches a
    product entry with a symbol and an instrument type does not receive
    them; the merge stores them under [symbol_pm] and [instrument_type_pm],
    which nothing reads.  Only the CUSIP fallback writes the reference
    values into [symbol] and [instrument_type]. *)
Theorem enrich_product_isin_values_unused :
  _enrich_product [sample_trade] [sample_product]
  = Ok [mkRow sample_trade (Some "AAPL") (Some "BOND") None None None None None]
  /\ symbol sample_trade = None
  /\ instrument_type sample_trade = None
  /\ _enrich_product
       [sample_trade_cusip] [sample_product]
     = Ok [mkRow
             (mkTrade (Some "T2") (Some "O2") (Some "C1") None (Some "037833100")
                      (Some "AAPL") (Some "BUY") (Some 10%Z) 2.5%float
                      (Some "2024-01-02") (Some "2024-01-02T10:00:00Z") (Some "USD")
                      None (Some "BOND") None None None None None nan)
             None None None None None None None].
Proof.
  repeat split; vm_compute; reflexivity.
Qed.

(** C4: when enrichment returns, every row of the result is an input row
    (its quantity and price among the columns that are never written) whose
    notional, for a row with a quantity, is the float product of that
    quantity and the row's price, whatever notional the input row had; and
    every input row has such a row in the result, so no row escapes the
    recomputation.  With a null price the product is null. *)
Theorem notional_recomputed (df : list Trade) (pm : list Product) (cm : ClientMaster)
    (out : Frame) :
  run_enrichment df pm cm = Ok out ->
  Forall
    (fun r =>
       exists t, In t df /\ row_identity (base r) = row_identity t
                 /\ forall q, quantity t = Some q ->
                              notional (base r) = (int_to_float64 q * price t)%float)
    (rows out)
  /\ Forall
       (fun t =>
          exists r, In r (rows out) /\ row_identity (base r) = row_identity t
                    /\ forall q, quantity t = Some q ->
                                 notional (base r) = (int_to_float64 q * price t)%float)
       df.
Proof.
  intros H.
  pose proof (enriched_rows df pm cm out H) as HR.
  assert (Hnot : forall r t, notional_is_product r ->
                   row_identity (base r) = row_identity t ->
                   forall q, quantity t = Some q ->
                             notional (base r) = (int_to_float64 q * price t)%float).
  { intros r t Hn E q Hq. unfold notional_is_product in Hn. unfold row_identity in E.
    assert (Eq : quantity (base r) = quantity t) by congruence.
    assert (Ep : price (base r) = price t) by congruence.
    rewrite Hn, Eq, Ep, Hq. reflexivity. }
  split.
  - eapply List.Forall_impl; [| exact HR].
    intros r [(t & Ht & E) Hn]. exists t. split; [exact Ht |]. split; [exact E |].
    now apply Hnot.
  - eapply List.Forall_impl; [| exact (run_enrichment_covers df pm cm out H)].
    intros t Ht. apply in_map_iff in Ht as (r & E & Hr).
    exists r. split; [exact Hr |]. split; [exact E |].
    rewrite List.Forall_forall in HR. destruct (HR r Hr) as [_ Hn].
    now apply Hnot.
Qed.

Lemma notional_recomputed_witness :
  run_enrichment sample_day sample_reference sample_clients = Ok sample_day_enriched
  /\ notional sample_trade_supplied = 999%float
  /\ List.map (fun r => notional (base r)) (rows sample_day_enriched)
     = [25%float; 25%float; 6%float; nan; 300%float; 3.5%float]
  /\ Forall
       (fun r =>
          exists t, In t sample_day /\ row_identity (base r) = row_identity t
                    /\ forall q, quantity t = Some q ->
                                 notional (base r) = (int_to_float64 q * price t)%float)
       (rows sample_day_enriched)
  /\ Forall
       (fun t =>
          exists r, In r (rows sample_day_enriched)
                    /\ row_identity (base r) = row_identity t
                    /\ forall q, quantity t = Some q ->
                                 notional (base r) = (int_to_float64 q * price t)%float)
       sample_day.
Proof.
  split; [vm_compute; reflexivity |].
  split; [reflexivity |].
  split; [vm_compute; reflexivity |].
  apply (notional_recomputed sample_day sample_reference sample_clients sample_day_enriched).
  vm_compute; reflexivity.
Defined.

(** C5 as stated fails: a product table with two entries under one ISIN, or
    a client table with two entries under one id, returns each matching
    input row twice, and two entries under the CUSIP of a row that takes
    the fallback make the assignment raise. *)
Lemma run_enrichment_multiplies_rows :
  match run_enrichment [sample_trade] [sample_product; sample_product_dual] sample_clients with
  | Ok out => length (rows out)
  | Raise _ => 0
  end = 2
  /\ match run_enrichment [sample_trade] [sample_product] sample_clients_twice with
     | Ok out => length (rows out)
     | Raise _ => 0
     end = 2
  /\ run_enrichment [sample_trade_cusip] [sample_product; sample_product_same_cusip]
                    sample_clients
     = Raise ValueError.
Proof.
  repeat split; vm_compute; reflexivity.
Qed.

(** C5, amended: when no row of the batch has more than one partner in the
    product table on ISIN (a null ISIN matching a null ISIN) and no row has
    more than one partner in the client table, a run of enrichment that
    returns returns a batch of the same length whose row at each position
    is the input row at that position. *)
Theorem run_enrichment_keeps_rows (df : list Trade) (pm : list Product)
    (cm : ClientMaster) (out : Frame) :
  unique_match isin pm_isin df pm = true ->
  (has_column "customerID" (cm_columns cm) = true ->
   unique_match client_id customerID df (cm_rows cm) = true) ->
  run_enrichment df pm cm = Ok out ->
  length (rows out) = length df
  /\ Forall2 (fun t r => row_identity (base r) = row_identity t) df (rows out).
Proof.
  intros H1 H3 H. apply run_enrichment_inv in H as (out1 & Hp & ->).
  pose proof (enrich_product_identity df pm out1 H1 Hp) as R1.
  match goal with
  | |- _ /\ Forall2 ?P df ?l => assert (R : Forall2 P df l)
  end.
  { rewrite fill_liquidity_rows. cbn [_derive_notional rows].
    apply Forall2_map_r; [intros t r Hr; exact Hr |].
    apply Forall2_map_r; [intros t r Hr; exact Hr |].
    apply enrich_client_identity; [exact H3 | exact R1]. }
  split; [| exact R].
  symmetry. exact (Forall2_length _ _ _ R).
Qed.

Lemma run_enrichment_keeps_rows_witness :
  unique_match isin pm_isin sample_day sample_reference = true
  /\ unique_match client_id customerID sample_day (cm_rows sample_clients) = true
  /\ run_enrichment sample_day sample_reference sample_clients = Ok sample_day_enriched
  /\ length (rows sample_day_enriched) = length sample_day
  /\ Forall2 (fun t r => row_identity (base r) = row_identity t)
             sample_day (rows sample_day_enriched).
Proof.
  split; [reflexivity |]. split; [reflexivity |].
  split; [vm_compute; reflexivity |].
  apply (run_enrichment_keeps_rows sample_day sample_reference sample_clients
           sample_day_enriched);
    [reflexivity | intros _; reflexivity | vm_compute; reflexivity].
Defined.

(** ** Index and mask facts *)

Lemma filter_snd_false {A : Type} (f : A -> bool) (l : list A) (s : nat) :
  (forall a, In a l -> f a = false) ->
  List.filter snd (combine (seq s (length (List.map f l))) (List.map f l)) = [].
Proof.
  revert s. induction l as [| a l IH]; intros s H; simpl; [reflexivity |].
  rewrite (H a) by now left. simpl. apply IH. intros b Hb. apply H. now right.
Qed.

Lemma index_where_false {A : Type} (f : A -> bool) (l : list A) :
  (forall a, In a l -> f a = false) -> index_where (List.map f l) = [].
Proof.
  intros H. unfold index_where. now rewrite filter_snd_false.
Qed.

(** C9: on a batch that enrichment returned, R006_NOTIONAL finds nothing:
    every notional is the very product the rule recomputes, so the
    difference is zero (or NaN) and never above the tolerance. *)
Theorem notional_rule_silent_after_enrichment (df : list Trade) (pm : list Product)
    (cm : ClientMaster) (out : Frame) :
  run_enrichment df pm cm = Ok out ->
  rule_notional_consistency out = [].
Proof.
  intros H. pose proof (enriched_rows df pm cm out H) as Hrows.
  unfold rule_notional_consistency.
  destruct (forallb _ _); [| reflexivity].
  rewrite index_where_false; [reflexivity |].
  intros r Hr. rewrite List.Forall_forall in Hrows. destruct (Hrows r Hr) as [_ Hn].
  unfold notional_is_product in Hn. rewrite Hn at 2.
  rewrite diff_within_tolerance. apply andb_false_r.
Qed.

Lemma notional_rule_silent_after_enrichment_witness :
  run_enrichment sample_batch [sample_product] sample_clients = Ok sample_enriched
  /\ rule_notional_consistency sample_enriched = [].
Proof.
  split; [vm_compute; reflexivity |].
  apply (notional_rule_silent_after_enrichment
           sample_batch [sample_product] sample_clients sample_enriched).
  vm_compute; reflexivity.
Defined.

(** C10: after enrichment every row without a quantity or without a price
    has a null notional; the supplied notional of such a row is lost (the
    fourth sample row came in with 999 and leaves with null). *)
Theorem notional_null_without_quantity_or_price :
  (forall (df : list Trade) (pm : list Product) (cm : ClientMaster) (out : Frame),
     run_enrichment df pm cm = Ok out ->
     Forall
       (fun r =>
          from_input df r
          /\ (isna (quantity (base r)) || float_isna (price (base r)) = true ->
              float_isna (notional (base r)) = true))
       (rows out))
  /\ float_notna (notional sample_trade_no_quantity) = true
  /\ quantity sample_trade_no_quantity = None
  /\ run_enrichment [sample_trade_no_quantity] [sample_product] sample_clients
     = Ok (mkFrame (columns sample_enriched)
             [mkRow (set_notional nan (set_symbol None sample_trade_no_quantity))
                    (Some "AAPL") (Some "BOND") None None None (Some "LOW") (Some "EMEA")]).
Proof.
  split; [| repeat split; vm_compute; reflexivity].
  intros df pm cm out H.
  eapply List.Forall_impl; [| exact (enriched_rows df pm cm out H)].
  intros r [Hin Hn]. split; [exact Hin |].
  unfold notional_is_product in Hn. rewrite Hn. intros Hnull.
  apply orb_true_iff in Hnull as [Hq | Hp].
  - apply float_isna_mul_l. destruct (quantity (base r)); [discriminate | reflexivity].
  - apply float_isna_mul_r. exact Hp.
Qed.

(** ** Label lists: ascending, duplicate-free *)

Lemma ascending_ext (l1 l2 : list nat) :
  StronglySorted lt l1 -> StronglySorted lt l2 ->
  (forall x, In x l1 <-> In x l2) -> l1 = l2.
Proof.
  revert l2. induction l1 as [| a l1 IH]; intros [| b l2] S1 S2 H.
  - reflexivity.
  - exfalso. apply (H b). now left.
  - exfalso. apply (H a). now left.
  - inversion S1 as [| ? ? S1' F1]; inversion S2 as [| ? ? S2' F2]; subst.
    rewrite List.Forall_forall in F1, F2.
    assert (a = b) as ->.
    { destruct (proj1 (H a) (or_introl eq_refl)) as [-> | Ha]; [reflexivity |].
      destruct (proj2 (H b) (or_introl eq_refl)) as [-> | Hb]; [reflexivity |].
      specialize (F1 _ Hb). specialize (F2 _ Ha). lia. }
    f_equal. apply IH; [exact S1' | exact S2' |].
    intros x. split; intros Hx.
    + destruct (proj1 (H x) (or_intror Hx)) as [-> | Hx']; [| exact Hx'].
      specialize (F1 _ Hx). lia.
    + destruct (proj2 (H x) (or_intror Hx)) as [-> | Hx']; [| exact Hx'].
      specialize (F2 _ Hx). lia.
Qed.

Lemma insert_label_In (i x : nat) (idx : list nat) :
  In x (insert_label i idx) <-> x = i \/ In x idx.
Proof.
  induction idx as [| j idx IH]; simpl; [intuition |].
  destruct (i <? j) eqn:Hlt; [simpl; intuition |].
  destruct (i =? j) eqn:Heq.
  - apply Nat.eqb_eq in Heq as ->. simpl. intuition.
  - simpl. rewrite IH. intuition.
Qed.

Lemma insert_label_sorted (i : nat) (idx : list nat) :
  StronglySorted lt idx -> StronglySorted lt (insert_label i idx).
Proof.
  induction 1 as [| j idx S IH F]; simpl.
  - repeat constructor.
  - destruct (i <? j) eqn:Hlt; [| destruct (i =? j) eqn:Heq].
    + apply Nat.ltb_lt in Hlt. constructor; [now constructor |].
      constructor; [exact Hlt |]. eapply List.Forall_impl; [| exact F].
      intros x Hx. simpl in Hx. lia.
    + now constructor.
    + apply Nat.ltb_ge in Hlt. apply Nat.eqb_neq in Heq.
      constructor; [exact IH |]. apply List.Forall_forall. intros x Hx.
      apply insert_label_In in Hx as [-> | Hx]; [lia |].
      rewrite List.Forall_forall in F. now apply F.
Qed.

Lemma index_union_In (a b : list nat) (x : nat) :
  In x (index_union a b) <-> In x a \/ In x b.
Proof.
  unfold index_union. rewrite <- in_app_iff.
  induction (a ++ b) as [| i l IH]; simpl; [reflexivity |].
  rewrite insert_label_In, IH. intuition.
Qed.

Lemma index_union_sorted (a b : list nat) : StronglySorted lt (index_union a b).
Proof.
  unfold index_union. induction (a ++ b) as [| i l IH]; simpl.
  - constructor.
  - now apply insert_label_sorted.
Qed.

Lemma where_from_In (s : nat) (mask : list bool) (i : nat) :
  In i (List.map fst (List.filter snd (combine (seq s (length mask)) mask)))
  <-> exists k, i = s + k /\ nth_error mask k = Some true.
Proof.
  revert s. induction mask as [| b mask IH]; intros s; simpl.
  - split; [contradiction | intros (k & _ & Hk); destruct k; discriminate].
  - assert (Htail :
      In i (List.map fst (List.filter snd (combine (seq (S s) (length mask)) mask)))
      <-> exists k, i = s + S k /\ nth_error mask k = Some true).
    { rewrite IH. split; intros (k & -> & Hk); exists k; split; auto; lia. }
    destruct b; simpl; rewrite Htail.
    + split.
      * intros [<- | (k & -> & Hk)]; [exists 0; split; [lia | reflexivity] |].
        exists (S k). split; [reflexivity | exact Hk].
      * intros ([| k] & -> & Hk); [left; lia | right; exists k; auto].
    + split.
      * intros (k & -> & Hk). exists (S k). split; [reflexivity | exact Hk].
      * intros ([| k] & -> & Hk); [discriminate | exists k; auto].
Qed.

Lemma index_where_In (mask : list bool) (i : nat) :
  In i (index_where mask) <-> nth_error mask i = Some true.
Proof.
  unfold index_where. rewrite where_from_In. split.
  - intros (k & -> & Hk). exact Hk.
  - intros H. exists i. split; [reflexivity | exact H].
Qed.

Lemma where_from_sorted (s : nat) (mask : list bool) :
  StronglySorted lt (List.map fst (List.filter snd (combine (seq s (length mask)) mask))).
Proof.
  revert s. induction mask as [| b mask IH]; intros s; simpl; [constructor |].
  destruct b; simpl; [| apply IH].
  constructor; [apply IH |]. apply List.Forall_forall. intros x Hx.
  apply where_from_In in Hx as (k & -> & _). lia.
Qed.

Lemma index_where_sorted (mask : list bool) : StronglySorted lt (index_where mask).
Proof. apply where_from_sorted. Qed.

Lemma index_where_map_In {A : Type} (f : A -> bool) (l : list A) (i : nat) :
  In i (index_where (List.map f l)) <-> exists a, nth_error l i = Some a /\ f a = true.
Proof.
  rewrite index_where_In, nth_error_map.
  destruct (nth_error l i) as [a |]; simpl.
  - split; [intros [= H]; eauto | intros (a' & [= <-] & H); now rewrite H].
  - split; [discriminate | intros (a' & [=] & _)].
Qed.

(** ** R001_MANDATORY *)

Lemma breaches_row_index (rid sev rsn : string) (idx : list nat) (df : Frame) :
  List.map row_index (_breaches_df rid sev rsn idx df) = idx.
Proof.
  unfold _breaches_df. destruct idx as [| i idx]; [reflexivity |].
  cbn [length Nat.eqb]. rewrite List.map_map. cbn [row_index]. apply List.map_id.
Qed.

Lemma breaches_rule (rid sev rsn : string) (idx : list nat) (df : Frame) :
  Forall (fun b => rule_id b = rid /\ severity b = sev) (_breaches_df rid sev rsn idx df).
Proof.
  unfold _breaches_df. destruct (Nat.eqb _ _); [constructor |].
  apply List.Forall_forall. intros b Hb. apply in_map_iff in Hb as (i & <- & _).
  split; reflexivity.
Qed.

Lemma mandatory_loop_absent (cols : list string) (acc : list nat) (df : Frame) :
  forallb (fun c => has_column c (columns df)) cols = false ->
  mandatory_loop cols acc df = index df.
Proof.
  revert acc. induction cols as [| c cols IH]; intros acc; simpl; [discriminate |].
  destruct (has_column c (columns df)); simpl; [apply IH | reflexivity].
Qed.

Lemma mandatory_loop_present (cols : list string) (acc : list nat) (df : Frame) (x : nat) :
  forallb (fun c => has_column c (columns df)) cols = true ->
  StronglySorted lt acc ->
  StronglySorted lt (mandatory_loop cols acc df)
  /\ (In x (mandatory_loop cols acc df)
      <-> In x acc
          \/ exists c r, In c cols /\ nth_error (rows df) x = Some r
                         /\ cell_isna (cell c r) = true).
Proof.
  revert acc. induction cols as [| c cols IH]; intros acc Hall Hacc; simpl.
  - split; [exact Hacc |]. split; [auto | intros [H | (c & r & [] & _)]; exact H].
  - apply andb_true_iff in Hall as [Hc Hall]. rewrite Hc. simpl.
    destruct (IH _ Hall (index_union_sorted acc
                (index_where (List.map (fun r => cell_isna (cell c r)) (rows df)))))
      as [Hs Hin].
    split; [exact Hs |]. rewrite Hin, index_union_In, index_where_map_In.
    split.
    + intros [[H | (r & Hr & Hn)] | (c' & r & Hc' & Hr & Hn)]; eauto 8.
    + intros [H | (c' & r & [<- | Hc'] & Hr & Hn)]; eauto 8.
Qed.

Lemma mandatory_null_cells (r : Row) :
  mandatory_null r = true
  <-> exists c, In c required /\ cell_isna (cell c r) = true.
Proof.
  unfold mandatory_null, required. split.
  - rewrite !orb_true_iff.
    intros [[[[[[[H | H] | H] | H] | H] | H] | H] | H];
      [exists "trade_id" | exists "order_id" | exists "client_id" | exists "side"
       | exists "quantity" | exists "price" | exists "trade_ts"
       | exists "instrument_type"];
      (split; [simpl; tauto | exact H]).
  - intros (c & Hc & H). simpl in Hc.
    rewrite !orb_true_iff.
    destruct Hc as [<- | [<- | [<- | [<- | [<- | [<- | [<- | [<- | []]]]]]]]];
      cbn in H; tauto.
Qed.

(** C6: R001_MANDATORY flags, once each and with severity CRITICAL, exactly
    the rows that have a null in one of the eight mandatory columns; when
    one of those columns does not exist in the batch it flags every row. *)
Theorem rule_mandatory_rows (df : Frame) :
  List.map row_index (rule_mandatory df)
  = (if forallb (fun c => has_column c (columns df)) required
     then index_where (List.map mandatory_null (rows df))
     else index df)
  /\ Forall (fun b => rule_id b = "R001_MANDATORY" /\ severity b = "CRITICAL")
            (rule_mandatory df)
  /\ (forall c, In c required -> has_column c (columns df) = false ->
                List.map row_index (rule_mandatory df) = seq 0 (length (rows df))).
Proof.
  unfold rule_mandatory. rewrite breaches_row_index.
  split; [| split; [apply breaches_rule |]].
  - destruct (forallb _ required) eqn:Hall.
    + apply ascending_ext.
      * apply (mandatory_loop_present required [] df 0 Hall). constructor.
      * apply index_where_sorted.
      * intros x.
        destruct (mandatory_loop_present required [] df x Hall) as [_ ->]; [constructor |].
        rewrite index_where_map_In. split.
        -- intros [[] | (c & r & Hc & Hr & Hn)]. exists r. split; [exact Hr |].
           apply mandatory_null_cells. eauto.
        -- intros (r & Hr & Hn). right.
           apply mandatory_null_cells in Hn as (c & Hc & Hn). eauto.
    + now apply mandatory_loop_absent.
  - intros c Hc Habs. apply mandatory_loop_absent.
    apply not_true_iff_false. intros Hall.
    rewrite forallb_forall in Hall. rewrite (Hall c Hc) in Habs. discriminate.
Qed.

(** ** The rule battery *)

Lemma concat_nonempty {A : Type} (ls : list (list A)) :
  concat (List.filter (fun o => 0 <? length o) ls) = concat ls.
Proof.
  induction ls as [| o ls IH]; simpl; [reflexivity |].
  destruct o as [| a o]; simpl; [exact IH | now rewrite IH].
Qed.

Lemma run_rules_concat (battery : list (Frame -> list Breach)) (df : Frame) :
  run_rules battery df = concat (List.map (fun r => r df) battery).
Proof.
  unfold run_rules. rewrite <- (concat_nonempty (List.map (fun r => r df) battery)).
  destruct (List.filter _ _); reflexivity.
Qed.

Lemma concat_map_Permutation {A B : Type} (f : A -> list B) (l l' : list A) :
  Permutation l l' -> Permutation (concat (List.map f l)) (concat (List.map f l')).
Proof.
  induction 1 as [| x l l' _ IH | x y l | l l' l'' _ IH1 _ IH2]; simpl.
  - constructor.
  - now apply Permutation_app_head.
  - rewrite !app_assoc. apply Permutation_app_tail. apply Permutation_app_comm.
  - now transitivity (concat (List.map f l')).
Qed.

(** C7: the breaches of the whole battery are those of the seven rules run
    one at a time and concatenated, and the battery in any other order
    gives the same breaches up to their order.  A rule is a function of
    the batch alone, so a second run returns the same ledger. *)
Theorem rule_independence (to_datetime to_datetime_utc : string -> option Z)
    (df : Frame) :
  run_all_rules to_datetime to_datetime_utc df
  = run_separately (rules to_datetime to_datetime_utc) df
  /\ run_all_rules to_datetime to_datetime_utc df
     = rule_mandatory df ++ rule_domain_enums df ++ rule_numeric_positive df
       ++ rule_identifier_format df
       ++ rule_timestamp_sanity to_datetime to_datetime_utc df
       ++ rule_notional_consistency df ++ rule_duplicate_keys df
  /\ (forall battery,
        Permutation (rules to_datetime to_datetime_utc) battery ->
        Permutation (run_all_rules to_datetime to_datetime_utc df)
                    (run_rules battery df)
        /\ Permutation (run_all_rules to_datetime to_datetime_utc df)
                       (run_separately battery df)).
Proof.
  assert (Hsep : forall battery,
             run_separately battery df = concat (List.map (fun r => r df) battery)).
  { intros battery. unfold run_separately. f_equal. apply List.map_ext. intros r.
    rewrite run_rules_concat. simpl. apply app_nil_r. }
  unfold run_all_rules. rewrite run_rules_concat.
  split; [symmetry; apply Hsep |].
  split; [simpl; now rewrite app_nil_r |].
  intros battery Hperm.
  rewrite run_rules_concat, Hsep.
  split; now apply concat_map_Permutation.
Qed.

(** ** Splitting the batch *)

Lemma loc_rows_map (g : nat -> bool) (df : Frame) :
  loc_rows (List.map g (index df)) df
  = List.filter (fun ir => g (fst ir)) (combine (index df) (rows df)).
Proof.
  unfold loc_rows. generalize (index df) as idx, (rows df) as rs.
  induction idx as [| i idx IH]; intros rs; simpl; [reflexivity |].
  destruct rs as [| r rs]; simpl; [reflexivity |].
  destruct (g i); simpl; now rewrite IH.
Qed.

Lemma combine_seq_In {A : Type} (l : list A) (s i : nat) (a : A) :
  In (i, a) (combine (seq s (length l)) l)
  <-> exists k, i = s + k /\ nth_error l k = Some a.
Proof.
  revert s. induction l as [| b l IH]; intros s; simpl.
  - split; [contradiction | intros (k & _ & Hk); destruct k; discriminate].
  - rewrite IH. split.
    + intros [[= <- <-] | (k & -> & Hk)];
        [exists 0; split; [lia | reflexivity] | exists (S k); split; [lia | exact Hk]].
    + intros ([| k] & -> & Hk).
      * left. injection Hk as ->. f_equal. lia.
      * right. exists k. split; [lia | exact Hk].
Qed.

Lemma index_rows_In (df : Frame) (i : nat) (r : Row) :
  In (i, r) (combine (index df) (rows df)) <-> nth_error (rows df) i = Some r.
Proof.
  unfold index. rewrite combine_seq_In. split.
  - intros (k & -> & Hk). exact Hk.
  - intros H. exists i. split; [reflexivity | exact H].
Qed.

Lemma filter_split_length {A : Type} (f : A -> bool) (l : list A) :
  length (List.filter f l) + length (List.filter (fun a => negb (f a)) l) = length l.
Proof.
  induction l as [| a l IH]; simpl; [reflexivity |].
  destruct (f a); simpl; lia.
Qed.

Lemma failed_index_In (ledger : list Breach) (i : nat) :
  i ∈ failed_index ledger <-> In i (List.map row_index ledger).
Proof.
  unfold failed_index. destruct ledger as [| b ledger].
  - simpl. rewrite elem_of_empty. tauto.
  - cbn [length Nat.ltb Nat.leb]. rewrite elem_of_list_to_set. apply list_elem_of_In.
Qed.

Lemma failed_index_ext (l1 l2 : list Breach) :
  (forall i, In i (List.map row_index l1) <-> In i (List.map row_index l2)) ->
  failed_index l1 = failed_index l2.
Proof.
  intros H. apply set_eq. intros i. rewrite !failed_index_In. apply H.
Qed.

(** The rows [validate_with] keeps and rejects, and that it never raises. *)
Lemma validate_with_ok (ledger : list Breach) (df : Frame) :
  exists res,
    validate_with ledger df = Ok res
    /\ breaches res = ledger
    /\ df_passed res
       = List.filter (fun ir => negb (bool_decide (fst ir ∈ failed_index ledger)))
                     (combine (index df) (rows df))
    /\ df_failed res
       = List.filter (fun ir => negb (negb (bool_decide (fst ir ∈ failed_index ledger))))
                     (combine (index df) (rows df))
    /\ metrics res
       = mkMetrics (length (rows df)) (length (df_passed res)) (length (df_failed res))
           (length ledger)
           (py_round
              (100 * int_to_float64 (Z.of_nat (length (df_passed res)))
               / int_to_float64 (Z.max 1 (Z.of_nat (length (rows df)))))%float 2).
Proof.
  unfold validate_with, py_float_div_int, py_float_mul_int, passed_mask.
  destruct (Z.eqb_spec (Z.max 1 (Z.of_nat (length (rows df)))) 0) as [E | _]; [lia |].
  cbn [bind]. eexists. split; [reflexivity |]. cbn [breaches df_passed df_failed metrics].
  split; [reflexivity |].
  rewrite List.map_map.
  rewrite (loc_rows_map (fun i => negb (bool_decide (i ∈ failed_index ledger))) df).
  rewrite (loc_rows_map (fun i => negb (negb (bool_decide (i ∈ failed_index ledger)))) df).
  repeat split.
Qed.

(** C3: validation splits the batch completely and disjointly.  A row is
    kept iff no breach of the ledger refers to it and rejected otherwise;
    no row is on both sides; the two sides add up to the batch; and any
    ledger naming the same rows, whatever the severities in it, gives the
    same split. *)
Theorem validation_partition (to_datetime to_datetime_utc : string -> option Z)
    (df : Frame) :
  exists res,
    run_validation to_datetime to_datetime_utc df = Ok res
    /\ breaches res = run_all_rules to_datetime to_datetime_utc df
    /\ (forall i r,
          In (i, r) (df_passed res)
          <-> nth_error (rows df) i = Some r
              /\ ~ In i (List.map row_index (breaches res)))
    /\ (forall i r,
          In (i, r) (df_failed res)
          <-> nth_error (rows df) i = Some r
              /\ In i (List.map row_index (breaches res)))
    /\ (forall i, In i (List.map fst (df_passed res)) ->
                  In i (List.map fst (df_failed res)) -> False)
    /\ length (df_passed res) + length (df_failed res) = length (rows df)
    /\ (forall ledger,
          (forall i, In i (List.map row_index ledger)
                     <-> In i (List.map row_index (breaches res))) ->
          exists res',
            validate_with ledger df = Ok res'
            /\ df_passed res' = df_passed res /\ df_failed res' = df_failed res).
Proof.
  unfold run_validation.
  set (ledger := run_all_rules to_datetime to_datetime_utc df).
  destruct (validate_with_ok ledger df) as (res & Hres & Hb & Hp & Hf & _).
  exists res. split; [exact Hres |]. split; [exact Hb |].
  assert (Hpass : forall i r,
    In (i, r) (df_passed res)
    <-> nth_error (rows df) i = Some r /\ ~ In i (List.map row_index (breaches res))).
  { intros i r. rewrite Hp, Hb, filter_In, index_rows_In. cbn [fst].
    rewrite negb_true_iff, bool_decide_eq_false, failed_index_In. tauto. }
  assert (Hfail : forall i r,
    In (i, r) (df_failed res)
    <-> nth_error (rows df) i = Some r /\ In i (List.map row_index (breaches res))).
  { intros i r. rewrite Hf, Hb, filter_In, index_rows_In. cbn [fst].
    rewrite negb_involutive, bool_decide_eq_true, failed_index_In. tauto. }
  split; [exact Hpass |]. split; [exact Hfail |].
  split; [| split].
  - intros i H1 H2.
    apply in_map_iff in H1 as ([i1 r1] & <- & H1). apply Hpass in H1 as [_ H1].
    apply in_map_iff in H2 as ([i2 r2] & E & H2). apply Hfail in H2 as [_ H2].
    cbn [fst] in *. subst. contradiction.
  - rewrite Hp, Hf, filter_split_length. unfold index.
    rewrite length_combine, length_seq. apply Nat.min_id.
  - intros ledger' Hsame.
    destruct (validate_with_ok ledger' df) as (res' & Hres' & _ & Hp' & Hf' & _).
    exists res'. split; [exact Hres' |].
    rewrite Hp', Hf', Hp, Hf.
    rewrite (failed_index_ext ledger' ledger) by (intros i; rewrite Hsame, Hb; tauto).
    split; reflexivity.
Qed.

(** ** The empty batch *)

Lemma mandatory_loop_empty (cols : list string) (df : Frame) :
  rows df = [] -> mandatory_loop cols [] df = [].
Proof.
  intros H. induction cols as [| c cols IH]; simpl; [reflexivity |].
  unfold index. rewrite H. simpl.
  destruct (has_column c (columns df)); simpl; [exact IH | reflexivity].
Qed.

Lemma run_all_rules_empty (to_datetime to_datetime_utc : string -> option Z)
    (cols : list string) :
  run_all_rules to_datetime to_datetime_utc (mkFrame cols []) = [].
Proof.
  unfold run_all_rules. rewrite run_rules_concat. simpl.
  unfold rule_mandatory. rewrite mandatory_loop_empty by reflexivity.
  unfold rule_domain_enums, rule_numeric_positive, rule_identifier_format,
    rule_timestamp_sanity, rule_notional_consistency, rule_duplicate_keys.
  cbn [rows columns List.map forallb].
  repeat (destruct (has_column _ cols); cbn [andb]); reflexivity.
Qed.

(** C8: the empty batch is validated without error: nothing passes,
    nothing fails, the ledger is empty and the pass rate is 0.0.  For every
    batch the run returns, the divisor being [max(1, input)], and the pass
    rate is [100 * passed / max(1, input)] rounded to two places. *)
Theorem empty_batch_validation (to_datetime to_datetime_utc : string -> option Z) :
  (forall cols,
     run_validation to_datetime to_datetime_utc (mkFrame cols [])
     = Ok (mkRunResult [] [] [] (mkMetrics 0 0 0 0 0%float)))
  /\ (forall df,
        exists res,
          run_validation to_datetime to_datetime_utc df = Ok res
          /\ input_rows (metrics res) = length (rows df)
          /\ passed_rows (metrics res) = length (df_passed res)
          /\ failed_rows (metrics res) = length (df_failed res)
          /\ breach_count (metrics res) = length (breaches res)
          /\ pass_rate_pct (metrics res)
             = py_round
                 (100 * int_to_float64 (Z.of_nat (passed_rows (metrics res)))
                  / int_to_float64 (Z.max 1 (Z.of_nat (input_rows (metrics res)))))%float
                 2).
Proof.
  split.
  - intros cols. unfold run_validation. rewrite run_all_rules_empty. reflexivity.
  - intros df. unfold run_validation.
    destruct (validate_with_ok (run_all_rules to_datetime to_datetime_utc df) df)
      as (res & Hres & Hb & _ & _ & Hm).
    exists res. split; [exact Hres |]. rewrite Hm, Hb. cbn. repeat split.
Qed.

(* ================================================================== *)
(** * Further properties of the rules *)

Lemma index_where_orb {A : Type} (f g : A -> bool) (l : list A) :
  index_union (index_where (List.map f l)) (index_where (List.map g l))
  = index_where (List.map (fun a => f a || g a) l).
Proof.
  apply ascending_ext; [apply index_union_sorted | apply index_where_sorted |].
  intros x. rewrite index_union_In, !index_where_map_In. split.
  - intros [(a & Ha & H) | (a & Ha & H)]; exists a; rewrite H;
      (split; [exact Ha |]); [reflexivity | apply orb_true_r].
  - intros (a & Ha & H). apply orb_true_iff in H as [H | H]; eauto.
Qed.

(** One [if col in df.columns: idx = idx.union(...)] step of a rule. *)
Lemma union_step {A : Type} (idx : list nat) (c : bool) (q p : A -> bool) (l : list A) :
  idx = index_where (List.map q l) ->
  (if c then index_union idx (index_where (List.map p l)) else idx)
  = index_where (List.map (fun a => q a || c && p a) l).
Proof.
  intros ->. destruct c.
  - rewrite index_where_orb. reflexivity.
  - f_equal. apply List.map_ext. intros a. now rewrite orb_false_r.
Qed.

Lemma index_where_none {A : Type} (l : list A) :
  [] = index_where (List.map (fun _ : A => false) l).
Proof. symmetry. apply index_where_false. reflexivity. Qed.

Lemma leb_nan_false (p x : float) : float_isna p = true -> (p <=? x)%float = false.
Proof.
  intros H. apply float_isna_spec in H. rewrite leb_spec, H. reflexivity.
Qed.

(** X1: R002_ENUMS flags, once each and in ascending order, exactly the
    rows with a non-null side, instrument type or currency outside its
    enumeration; a column that does not exist is not checked, and a null
    is never a violation. *)
Theorem rule_domain_enums_rows (df : Frame) :
  List.map row_index (rule_domain_enums df)
  = index_where (List.map (enum_violation (columns df)) (rows df))
  /\ Forall (fun b => rule_id b = "R002_ENUMS" /\ severity b = "HIGH")
            (rule_domain_enums df).
Proof.
  unfold rule_domain_enums. cbv zeta. split; [| apply breaches_rule].
  rewrite breaches_row_index.
  rewrite (union_step [] _ (fun _ => false) _ (rows df) (index_where_none _)).
  rewrite (union_step _ _ _ _ (rows df) eq_refl).
  rewrite (union_step _ _ _ _ (rows df) eq_refl).
  f_equal. apply List.map_ext. intros r. unfold enum_violation, bad_enum, isin_set.
  destruct (side (base r)), (instrument_type (base r)), (currency (base r));
    cbn [notna isna negb orb]; rewrite ?andb_true_r, ?andb_false_r; reflexivity.
Qed.

(** X2: R003_POSITIVE flags, once each and in ascending order, exactly the
    rows whose quantity is an integer at most 0 or whose price compares
    [<= 0] as a float; a null quantity and a NaN price are not flagged, a
    quantity or price of exactly zero is. *)
Theorem rule_numeric_positive_rows (df : Frame) :
  List.map row_index (rule_numeric_positive df)
  = index_where (List.map (not_positive (columns df)) (rows df))
  /\ Forall (fun b => rule_id b = "R003_POSITIVE" /\ severity b = "HIGH")
            (rule_numeric_positive df)
  /\ (forall r, quantity (base r) = None -> float_isna (price (base r)) = true ->
                not_positive (columns df) r = false)
  /\ (forall r, has_column "quantity" (columns df) = true ->
                quantity (base r) = Some 0%Z -> not_positive (columns df) r = true)
  /\ (forall r, has_column "price" (columns df) = true ->
                price (base r) = 0%float -> not_positive (columns df) r = true).
Proof.
  unfold rule_numeric_positive. cbv zeta.
  split; [| split; [apply breaches_rule |]].
  - rewrite breaches_row_index.
    rewrite (union_step [] _ (fun _ => false) _ (rows df) (index_where_none _)).
    rewrite (union_step _ _ _ _ (rows df) eq_refl).
    f_equal. apply List.map_ext. intros r. unfold not_positive, float_notna.
    destruct (quantity (base r)); cbn [notna isna negb orb andb int_le0];
      (destruct (float_isna (price (base r))) eqn:Hp;
       [rewrite (leb_nan_false _ _ Hp) | ]; cbn [negb andb]; reflexivity).
  - unfold not_positive. split; [| split].
    + intros r Hq Hp. rewrite Hq, (leb_nan_false _ _ Hp). cbn.
      now rewrite !andb_false_r.
    + intros r Hc Hq. rewrite Hc, Hq. reflexivity.
    + intros r Hc Hp. rewrite Hc, Hp. cbn. apply orb_true_r.
Qed.

Lemma fullmatch_length (pat : list (ascii -> bool)) (s : string) :
  fullmatch pat s = true -> String.length s = length pat.
Proof.
  revert s. induction pat as [| p pat IH]; intros [| c s]; simpl; try discriminate.
  - reflexivity.
  - intros H. apply andb_true_iff in H as [_ H]. f_equal. now apply IH.
Qed.

(** X3: R004_ID_FORMAT flags, once each and in ascending order, exactly the
    rows with a non-null ISIN that is not two capitals, nine capitals or
    digits and a digit, or a non-null CUSIP that is not nine capitals or
    digits; so an ISIN of a length other than 12 or a CUSIP of a length
    other than 9 is always a violation, and nulls never are. *)
Theorem rule_identifier_format_rows (df : Frame) :
  List.map row_index (rule_identifier_format df)
  = index_where (List.map (bad_identifier (columns df)) (rows df))
  /\ Forall (fun b => rule_id b = "R004_ID_FORMAT" /\ severity b = "MEDIUM")
            (rule_identifier_format df)
  /\ (forall s, String.length s <> 12 -> bad_format _ISIN_RE (Some s) = true)
  /\ (forall s, String.length s <> 9 -> bad_format _CUSIP_RE (Some s) = true)
  /\ (forall r, isin (base r) = None -> cusip (base r) = None ->
                bad_identifier (columns df) r = false).
Proof.
  unfold rule_identifier_format. cbv zeta.
  split; [| split; [apply breaches_rule |]].
  - rewrite breaches_row_index.
    rewrite (union_step [] _ (fun _ => false) _ (rows df) (index_where_none _)).
    rewrite (union_step _ _ _ _ (rows df) eq_refl).
    reflexivity.
  - split; [| split].
    + intros s Hs. unfold bad_format. destruct (fullmatch _ISIN_RE s) eqn:E; [| reflexivity].
      apply fullmatch_length in E. contradiction.
    + intros s Hs. unfold bad_format. destruct (fullmatch _CUSIP_RE s) eqn:E; [| reflexivity].
      apply fullmatch_length in E. contradiction.
    + intros r Hi Hc. unfold bad_identifier. rewrite Hi, Hc. cbn.
      now rewrite !andb_false_r.
Qed.

(** ** Duplicates *)

Lemma filter_count_one {A : Type} (p : A -> bool) (l : list A) (i : nat) (a : A) :
  nth_error l i = Some a -> p a = true -> 1 <= length (List.filter p l).
Proof.
  revert i. induction l as [| x l IH]; intros [| i] H Hp; simpl in *; try discriminate.
  - injection H as ->. rewrite Hp. simpl. lia.
  - specialize (IH i H Hp). destruct (p x); simpl; lia.
Qed.

Lemma filter_count_ex {A : Type} (p : A -> bool) (l : list A) :
  1 <= length (List.filter p l) -> exists j b, nth_error l j = Some b /\ p b = true.
Proof.
  induction l as [| x l IH]; simpl; [lia |].
  destruct (p x) eqn:Hx.
  - intros _. exists 0, x. split; [reflexivity | exact Hx].
  - intros H. destruct (IH H) as (j & b & Hj & Hb). exists (S j), b. split; assumption.
Qed.

Lemma filter_count_two {A : Type} (p : A -> bool) (l : list A) (i j : nat) (a b : A) :
  i <> j -> nth_error l i = Some a -> p a = true ->
  nth_error l j = Some b -> p b = true -> 2 <= length (List.filter p l).
Proof.
  revert i j. induction l as [| x l IH]; intros [| i] [| j] Hij Ha Hpa Hb Hpb;
    simpl in *; try discriminate; try congruence.
  - injection Ha as ->. rewrite Hpa. simpl.
    pose proof (filter_count_one p l j b Hb Hpb). lia.
  - injection Hb as ->. rewrite Hpb. simpl.
    pose proof (filter_count_one p l i a Ha Hpa). lia.
  - assert (i <> j) by congruence.
    specialize (IH i j H Ha Hpa Hb Hpb). destruct (p x); simpl; lia.
Qed.

Lemma filter_count_other {A : Type} (p : A -> bool) (l : list A) (i : nat) :
  2 <= length (List.filter p l) ->
  exists j b, j <> i /\ nth_error l j = Some b /\ p b = true.
Proof.
  revert i. induction l as [| x l IH]; intros i; simpl; [lia |].
  destruct (p x) eqn:Hx; simpl; intros H.
  - destruct i as [| i].
    + destruct (filter_count_ex p l) as (j & b & Hj & Hb); [lia |].
      exists (S j), b. repeat split; [discriminate | exact Hj | exact Hb].
    + exists 0, x. repeat split; [discriminate | exact Hx].
  - destruct i as [| i].
    + destruct (filter_count_ex p l) as (j & b & Hj & Hb); [lia |].
      exists (S j), b. repeat split; [discriminate | exact Hj | exact Hb].
    + destruct (IH i H) as (j & b & Hji & Hj & Hb).
      exists (S j), b. repeat split; [congruence | exact Hj | exact Hb].
Qed.

Lemma filter_map_length {A B : Type} (p : B -> bool) (f : A -> B) (l : list A) :
  length (List.filter p (List.map f l)) = length (List.filter (fun a => p (f a)) l).
Proof.
  induction l as [| a l IH]; simpl; [reflexivity |].
  destruct (p (f a)); simpl; now rewrite IH.
Qed.

(** A row is marked by [duplicated] iff another row has an equal key. *)
Lemma duplicated_other {A K : Type} (eqb : K -> K -> bool) (key : A -> K)
    (l : list A) (i : nat) (a : A) :
  (forall k, eqb k k = true) ->
  nth_error l i = Some a ->
  (2 <=? length (List.filter (eqb (key a)) (List.map key l))) = true
  <-> exists j b, j <> i /\ nth_error l j = Some b /\ eqb (key a) (key b) = true.
Proof.
  intros Hrefl Ha. rewrite Nat.leb_le, filter_map_length. split.
  - apply filter_count_other.
  - intros (j & b & Hji & Hj & Hb).
    apply (filter_count_two _ l i j a b); auto.
Qed.

Lemma key_eq_refl (k : option string) : key_eq k k = true.
Proof. unfold key_eq. now apply bool_decide_eq_true. Qed.

Lemma soft_key_eq_refl (k : option string * option string * option Z * float) :
  soft_key_eq k k = true.
Proof.
  destruct k as [[[o t] q] p]. unfold soft_key_eq, float_key_eq, float_isna, is_nan.
  rewrite !bool_decide_eq_true_2 by reflexivity.
  destruct (p =? p)%float; reflexivity.
Qed.

Lemma duplicate_keys_index (df : Frame) :
  List.map row_index (rule_duplicate_keys df)
  = index_where
      (List.map
         (fun r =>
            has_column "trade_id" (columns df)
            && (2 <=? length (List.filter (key_eq (trade_id (base r)))
                               (List.map (fun r' => trade_id (base r')) (rows df))))
            || forallb (fun c => has_column c (columns df))
                 ["order_id"; "trade_ts"; "quantity"; "price"]
               && (2 <=? length (List.filter (soft_key_eq (soft_key r))
                                  (List.map soft_key (rows df)))))
         (rows df)).
Proof.
  unfold rule_duplicate_keys. cbv zeta. rewrite breaches_row_index.
  unfold duplicated. rewrite !List.map_map.
  rewrite (union_step [] _ (fun _ => false) _ (rows df) (index_where_none _)).
  rewrite (union_step _ _ _ _ (rows df) eq_refl).
  reflexivity.
Qed.

(** X5: R007_DUPLICATES flags a row iff another row of the batch has the
    same trade id (null equal to null) or the same order id, time stamp,
    quantity and price; so two rows with one trade id are both flagged. *)
Theorem rule_duplicate_keys_rows (df : Frame) :
  (forall i,
     In i (List.map row_index (rule_duplicate_keys df))
     <-> exists r j r',
           nth_error (rows df) i = Some r /\ j <> i
           /\ nth_error (rows df) j = Some r'
           /\ shares_key (columns df) r r' = true)
  /\ (forall i j r r',
        i <> j -> nth_error (rows df) i = Some r -> nth_error (rows df) j = Some r' ->
        has_column "trade_id" (columns df) = true ->
        trade_id (base r) = trade_id (base r') ->
        In i (List.map row_index (rule_duplicate_keys df))
        /\ In j (List.map row_index (rule_duplicate_keys df)))
  /\ Forall (fun b => rule_id b = "R007_DUPLICATES" /\ severity b = "CRITICAL")
            (rule_duplicate_keys df).
Proof.
  assert (Hchar : forall i,
     In i (List.map row_index (rule_duplicate_keys df))
     <-> exists r j r',
           nth_error (rows df) i = Some r /\ j <> i
           /\ nth_error (rows df) j = Some r'
           /\ shares_key (columns df) r r' = true).
  { intros i. rewrite duplicate_keys_index, index_where_map_In. unfold shares_key. split.
    - intros (r & Hr & H). apply orb_true_iff in H as [H | H];
        apply andb_true_iff in H as [Hc H].
      + apply (duplicated_other key_eq (fun r' => trade_id (base r')) _ i r key_eq_refl Hr)
          in H as (j & r' & Hj & Hr' & E).
        exists r, j, r'. rewrite Hc, E. auto.
      + apply (duplicated_other soft_key_eq soft_key _ i r soft_key_eq_refl Hr)
          in H as (j & r' & Hj & Hr' & E).
        exists r, j, r'. rewrite Hc, E. rewrite orb_true_r. auto.
    - intros (r & j & r' & Hr & Hj & Hr' & H). exists r. split; [exact Hr |].
      apply orb_true_iff in H as [H | H]; apply andb_true_iff in H as [Hc E]; rewrite Hc.
      + apply orb_true_iff. left. cbn [andb].
        apply (duplicated_other key_eq (fun r' => trade_id (base r')) _ i r key_eq_refl Hr).
        eauto.
      + apply orb_true_iff. right. cbn [andb].
        apply (duplicated_other soft_key_eq soft_key _ i r soft_key_eq_refl Hr).
        eauto. }
  split; [exact Hchar |]. split.
  - intros i j r r' Hij Hr Hr' Hc E. split; apply Hchar.
    + exists r, j, r'. repeat split; auto. unfold shares_key.
      rewrite Hc, E, key_eq_refl. reflexivity.
    + exists r', i, r. repeat split; auto. unfold shares_key.
      rewrite Hc, E, key_eq_refl. reflexivity.
  - unfold rule_duplicate_keys. cbv zeta. apply breaches_rule.
Qed.

(** ** The ledger refers to rows of the batch *)

Lemma labels_nil (n : nat) : labels n [].
Proof. split; constructor. Qed.

Lemma labels_where {A : Type} (f : A -> bool) (l : list A) :
  labels (length l) (index_where (List.map f l)).
Proof.
  split; [apply index_where_sorted |].
  apply List.Forall_forall. intros i Hi.
  apply index_where_map_In in Hi as (a & Ha & _).
  apply nth_error_Some. congruence.
Qed.

Lemma labels_union (n : nat) (a b : list nat) :
  labels n a -> labels n b -> labels n (index_union a b).
Proof.
  intros [_ Ha] [_ Hb]. split; [apply index_union_sorted |].
  rewrite List.Forall_forall in *. intros i Hi.
  apply index_union_In in Hi as [Hi | Hi]; auto.
Qed.

Lemma labels_index (df : Frame) : labels (length (rows df)) (index df).
Proof.
  unfold index. split.
  - generalize 0 as s. induction (length (rows df)) as [| n IH]; intros s; simpl;
      constructor; [apply IH |].
    apply List.Forall_forall. intros i Hi. apply in_seq in Hi. lia.
  - apply List.Forall_forall. intros i Hi. apply in_seq in Hi. lia.
Qed.

Lemma labels_mandatory_loop (cols : list string) (acc : list nat) (df : Frame) :
  labels (length (rows df)) acc ->
  labels (length (rows df)) (mandatory_loop cols acc df).
Proof.
  revert acc. induction cols as [| c cols IH]; intros acc Hacc; simpl; [exact Hacc |].
  destruct (has_column c (columns df)); simpl; [| apply labels_index].
  apply IH. apply labels_union; [exact Hacc | apply labels_where].
Qed.

Lemma labels_length_from (s n : nat) (idx : list nat) :
  StronglySorted lt idx -> Forall (fun i => s <= i < n) idx -> length idx <= n - s.
Proof.
  intros Hs. revert s. induction Hs as [| a idx Hs IH Ha]; intros s Hb; simpl; [lia |].
  inversion Hb as [| ? ? Hab Hb']; subst.
  assert (H : length idx <= n - S a).
  { apply IH. rewrite List.Forall_forall in *. intros i Hi.
    specialize (Ha i Hi). specialize (Hb' i Hi). lia. }
  lia.
Qed.

Lemma labels_length (n : nat) (idx : list nat) : labels n idx -> length idx <= n.
Proof.
  intros [Hs Hb]. pose proof (labels_length_from 0 n idx Hs) as H.
  rewrite Nat.sub_0_r in H. apply H.
  eapply List.Forall_impl; [| exact Hb]. intros i Hi. simpl in Hi. lia.
Qed.

Ltac labels_tac :=
  repeat first
    [ apply labels_nil
    | apply labels_where
    | apply labels_index
    | apply labels_union
    | match goal with |- labels _ (if ?c then _ else _) => destruct c end ].

(** The labels every rule of the battery reports. *)
Lemma rules_labels (to_datetime to_datetime_utc : string -> option Z) (df : Frame) :
  Forall (fun rule => labels (length (rows df)) (List.map row_index (rule df)))
         (rules to_datetime to_datetime_utc).
Proof.
  unfold rules.
  repeat (apply List.Forall_cons); [.. | apply List.Forall_nil]; cbv beta.
  - unfold rule_mandatory. rewrite breaches_row_index.
    apply labels_mandatory_loop, labels_nil.
  - unfold rule_domain_enums. cbv zeta. rewrite breaches_row_index. labels_tac.
  - unfold rule_numeric_positive. cbv zeta. rewrite breaches_row_index. labels_tac.
  - unfold rule_identifier_format. cbv zeta. rewrite breaches_row_index. labels_tac.
  - unfold rule_timestamp_sanity. cbv zeta. rewrite breaches_row_index. labels_tac.
  - unfold rule_notional_consistency. cbv zeta. rewrite breaches_row_index. labels_tac.
  - unfold rule_duplicate_keys, duplicated. cbv zeta.
    rewrite breaches_row_index, !List.map_map. labels_tac.
Qed.

Lemma breaches_df_In (rid sev rsn : string) (idx : list nat) (df : Frame) (b : Breach) :
  In b (_breaches_df rid sev rsn idx df)
  <-> exists i, In i idx /\ b = mkBreach rid sev rsn i (keys_of df i).
Proof.
  unfold _breaches_df. destruct idx as [| i0 idx].
  - simpl. split; [contradiction | intros (i & [] & _)].
  - cbn [length Nat.eqb]. rewrite in_map_iff. unfold keys_of.
    split; intros (i & H1 & H2); exists i; auto.
Qed.

Lemma run_all_rules_In (to_datetime to_datetime_utc : string -> option Z)
    (df : Frame) (b : Breach) :
  In b (run_all_rules to_datetime to_datetime_utc df)
  <-> exists rule, In rule (rules to_datetime to_datetime_utc) /\ In b (rule df).
Proof.
  unfold run_all_rules. rewrite run_rules_concat, in_concat. split.
  - intros (l & Hl & Hb). apply in_map_iff in Hl as (rule & <- & Hr). eauto.
  - intros (rule & Hr & Hb). exists (rule df). split; [| exact Hb].
    apply in_map_iff. eauto.
Qed.

Lemma run_all_rules_valid (to_datetime to_datetime_utc : string -> option Z)
    (df : Frame) (b : Breach) :
  In b (run_all_rules to_datetime to_datetime_utc df) ->
  row_index b < length (rows df).
Proof.
  intros H. apply run_all_rules_In in H as (rule & Hr & Hb).
  pose proof (rules_labels to_datetime to_datetime_utc df) as HL.
  rewrite List.Forall_forall in HL. destruct (HL rule Hr) as [_ Hv].
  rewrite List.Forall_forall in Hv. apply Hv. apply in_map. exact Hb.
Qed.

(** X6: every breach of the ledger refers to a row of the batch, shows that
    row's trade id and order id in its [keys] ("<NA>" for a null, "NA" for
    a column that does not exist), and carries one of the seven rule codes
    with the severity fixed for it; the placeholder code "NA" never
    appears. *)
Theorem ledger_traceable (to_datetime to_datetime_utc : string -> option Z)
    (df : Frame) :
  Forall
    (fun b =>
       (exists r,
          nth_error (rows df) (row_index b) = Some r
          /\ keys b
             = "trade_id="
               +:+ (if has_column "trade_id" (columns df)
                    then py_str (trade_id (base r)) else "NA")
               +:+ "|order_id="
               +:+ (if has_column "order_id" (columns df)
                    then py_str (order_id (base r)) else "NA"))
       /\ In (rule_id b, severity b) rule_codes)
    (run_all_rules to_datetime to_datetime_utc df).
Proof.
  apply List.Forall_forall. intros b Hb.
  pose proof (run_all_rules_valid _ _ _ _ Hb) as Hv.
  apply nth_error_Some in Hv.
  destruct (nth_error (rows df) (row_index b)) as [r |] eqn:Hr; [| congruence].
  apply run_all_rules_In in Hb as (rule & Hrule & Hb).
  assert (Hshape : exists rid sev rsn idx,
             rule df = _breaches_df rid sev rsn idx df /\ In (rid, sev) rule_codes).
  { unfold rules in Hrule. simpl in Hrule.
    destruct Hrule as [<- | [<- | [<- | [<- | [<- | [<- | [<- | []]]]]]]];
      do 4 eexists; (split; [reflexivity | simpl; tauto]). }
  destruct Hshape as (rid & sev & rsn & idx & Hrule' & Hcode).
  rewrite Hrule' in Hb. apply breaches_df_In in Hb as (i & _ & ->).
  cbn [row_index keys rule_id severity] in *.
  split; [| exact Hcode].
  exists r. split; [reflexivity |].
  unfold keys_of, at_. rewrite Hr. reflexivity.
Qed.

Lemma concat_length_bound {A : Type} (ls : list (list A)) (n : nat) :
  Forall (fun l => length l <= n) ls -> length (concat ls) <= length ls * n.
Proof.
  induction 1 as [| l ls Hl _ IH]; simpl; [lia |].
  rewrite length_app. lia.
Qed.

(** X7: no rule flags a row twice and every rule lists its rows in
    ascending order, so the ledger never holds more than seven breaches
    per row of the batch. *)
Theorem ledger_bound (to_datetime to_datetime_utc : string -> option Z) (df : Frame) :
  Forall (fun rule => StronglySorted lt (List.map row_index (rule df)))
         (rules to_datetime to_datetime_utc)
  /\ length (run_all_rules to_datetime to_datetime_utc df) <= 7 * length (rows df).
Proof.
  pose proof (rules_labels to_datetime to_datetime_utc df) as HL.
  split.
  - eapply List.Forall_impl; [| exact HL]. intros rule [Hs _]. exact Hs.
  - unfold run_all_rules. rewrite run_rules_concat.
    pose proof (concat_length_bound
                  (List.map (fun r => r df) (rules to_datetime to_datetime_utc))
                  (length (rows df))) as Hb.
    rewrite length_map in Hb. cbn [rules length] in Hb. rewrite Nat.mul_comm.
    rewrite Nat.mul_comm in Hb. apply Hb.
    apply List.Forall_forall. intros l Hl. apply in_map_iff in Hl as (rule & <- & Hr).
    rewrite List.Forall_forall in HL. specialize (HL rule Hr).
    apply labels_length in HL. now rewrite length_map in HL.
Qed.

(** ** The metrics of a run *)

Lemma map_fst_combine_seq {A : Type} (l : list A) (s : nat) :
  List.map fst (combine (seq s (length l)) l) = seq s (length l).
Proof.
  revert s. induction l as [| a l IH]; intros s; simpl; [reflexivity |].
  now rewrite IH.
Qed.

Lemma NoDup_map_filter {A B : Type} (f : A -> B) (p : A -> bool) (l : list A) :
  List.NoDup (List.map f l) -> List.NoDup (List.map f (List.filter p l)).
Proof.
  induction l as [| a l IH]; simpl; intros H; [constructor |].
  inversion H as [| ? ? Hna Hl]; subst. destruct (p a); simpl; [| now apply IH].
  constructor; [| now apply IH].
  intros Hin. apply Hna. apply in_map_iff in Hin as (x & Hx & Hin).
  apply filter_In in Hin as [Hin _]. apply in_map_iff. eauto.
Qed.

(** X8: the metrics of a run are consistent with each other: passed and
    failed rows add up to the input, there are never more failed rows than
    breaches, and every row passes exactly when the ledger is empty. *)
Theorem metrics_consistent (to_datetime to_datetime_utc : string -> option Z)
    (df : Frame) :
  exists res,
    run_validation to_datetime to_datetime_utc df = Ok res
    /\ passed_rows (metrics res) + failed_rows (metrics res) = input_rows (metrics res)
    /\ failed_rows (metrics res) <= breach_count (metrics res)
    /\ (passed_rows (metrics res) = input_rows (metrics res)
        <-> breach_count (metrics res) = 0).
Proof.
  unfold run_validation.
  set (ledger := run_all_rules to_datetime to_datetime_utc df).
  destruct (validate_with_ok ledger df) as (res & Hres & Hb & Hp & Hf & Hm).
  exists res. split; [exact Hres |]. rewrite Hm. cbn [passed_rows failed_rows
    input_rows breach_count].
  assert (Hsum : length (df_passed res) + length (df_failed res) = length (rows df)).
  { rewrite Hp, Hf.
    rewrite (filter_split_length
               (fun ir => negb (bool_decide (fst ir ∈ failed_index ledger)))).
    unfold index. rewrite length_combine, length_seq. apply Nat.min_id. }
  assert (Hfail : forall i r,
    In (i, r) (df_failed res)
    <-> nth_error (rows df) i = Some r /\ In i (List.map row_index ledger)).
  { intros i r. rewrite Hf, filter_In, index_rows_In. cbn [fst].
    rewrite negb_involutive, bool_decide_eq_true, failed_index_In. tauto. }
  split; [exact Hsum |]. split.
  - rewrite <- (length_map row_index ledger), <- (length_map fst (df_failed res)).
    apply NoDup_incl_length.
    + rewrite Hf. apply NoDup_map_filter. unfold index.
      rewrite map_fst_combine_seq. apply seq_NoDup.
    + intros i Hi. apply in_map_iff in Hi as ([i' r] & <- & Hi).
      apply Hfail in Hi as [_ Hi]. exact Hi.
  - split.
    + intros Hall. assert (Hnone : length (df_failed res) = 0) by lia.
      destruct ledger as [| b ledger'] eqn:Hl; [reflexivity |]. exfalso.
      assert (Hin : In b (run_all_rules to_datetime to_datetime_utc df)).
      { fold ledger. rewrite Hl. now left. }
      apply run_all_rules_valid in Hin. apply nth_error_Some in Hin.
      destruct (nth_error (rows df) (row_index b)) as [r |] eqn:Hr; [| congruence].
      assert (Hbad : In (row_index b, r) (df_failed res)).
      { apply Hfail. split; [exact Hr | now left]. }
      destruct (df_failed res); [contradiction | discriminate].
    + intros Hzero. destruct ledger as [| b ledger']; [| discriminate].
      assert (Hnone : df_failed res = []).
      { destruct (df_failed res) as [| [i r] l] eqn:E; [reflexivity |].
        exfalso. assert (Hin : In (i, r) ((i, r) :: l)) by now left.
        apply Hfail in Hin as [_ []]. }
      rewrite Hnone in Hsum. simpl in Hsum. lia.
Qed.

(* ================================================================== *)
(** * Further properties of enrichment *)

Lemma find_hd_filter {A : Type} (p : A -> bool) (l : list A) :
  List.find p l = hd_error (List.filter p l).
Proof.
  induction l as [| a l IH]; simpl; [reflexivity |]. destruct (p a); auto.
Qed.

Lemma merge_left_unique_map {L R O : Type}
    (left_on : L -> option string) (right_on : R -> option string)
    (join : L -> option R -> O) (left : list L) (right : list R) :
  unique_match left_on right_on left right = true ->
  merge_left left_on right_on join left right
  = List.map (fun l => join l (partner (left_on l) right_on right)) left.
Proof.
  unfold unique_match, merge_left, partner.
  induction left as [| l left IH]; simpl; intros H; [reflexivity |].
  apply andb_true_iff in H as [Hl Hrest]. apply Nat.leb_le in Hl.
  rewrite find_hd_filter.
  destruct (List.filter _ right) as [| r [| r' rest]]; simpl in *;
    [f_equal; exact (IH Hrest) .. | lia].
Qed.

Lemma assign_values_map {A B V : Type} (set : V -> B -> B) (m : A -> bool)
    (v : A -> V) (j : A -> B) (l : list A) :
  assign_values set (List.map m l) (List.map v (List.filter m l)) (List.map j l)
  = List.map (fun a => if m a then set (v a) (j a) else j a) l.
Proof.
  induction l as [| a l IH]; simpl; [reflexivity |].
  destruct (m a); simpl; now rewrite IH.
Qed.

Lemma set_column_combine_first_map {A B C : Type} (set : option C -> B -> B)
    (f : B -> option C) (g : A -> option C) (h : A -> B) (l : list A) :
  set_column set (combine_first (List.map f (List.map h l)) (List.map g l)) (List.map h l)
  = List.map
      (fun a => set (match f (h a) with Some x => Some x | None => g a end) (h a)) l.
Proof.
  induction l as [| a l IH]; simpl; [reflexivity |].
  rewrite IH. destruct (f (h a)); reflexivity.
Qed.

(** With one partner at most per key, [_enrich_product] works row by row. *)
Lemma enrich_product_rowwise (df : list Trade) (pm : list Product) :
  unique_match isin pm_isin df pm = true ->
  unique_match cusip pm_cusip (List.filter needs_cusip df) pm = true ->
  _enrich_product df pm = Ok (List.map (resolve_product pm) df).
Proof.
  intros H1 H2. unfold _enrich_product.
  rewrite (merge_left_unique_map isin pm_isin product_join df pm H1).
  set (j := fun t : Trade => product_join t (partner (isin t) pm_isin pm)).
  set (v := fun t : Trade => cusip_join t (partner (cusip t) pm_cusip pm)).
  assert (Hmask :
    List.map (fun r => isna (symbol (base r)) && notna (cusip (base r))) (List.map j df)
    = List.map needs_cusip df).
  { rewrite List.map_map. reflexivity. }
  rewrite Hmask.
  assert (Hstep :
    (if any (List.map needs_cusip df)
     then loc_assign set_cusip_values (List.map needs_cusip df)
            (merge_left cusip pm_cusip cusip_join (loc_mask (List.map needs_cusip df) df) pm)
            (List.map j df)
     else Ok (List.map j df))
    = Ok (List.map (fun t => if needs_cusip t then set_cusip_values (v t) (j t) else j t) df)).
  { destruct (any _) eqn:Hany.
    - unfold loc_assign. rewrite loc_mask_map, count_true_map.
      rewrite (merge_left_unique_map cusip pm_cusip cusip_join _ pm H2).
      rewrite length_map, Nat.eqb_refl. f_equal.
      apply (assign_values_map set_cusip_values needs_cusip v j df).
    - f_equal. apply List.map_ext_in. intros t Ht.
      now rewrite (any_map_false needs_cusip df Hany t Ht). }
  rewrite Hstep. cbn [bind]. f_equal.
  set (h1 := fun t => if needs_cusip t then set_cusip_values (v t) (j t) else j t).
  rewrite (set_column_combine_first_map
             (fun x => map_base (set_instrument_type x))
             (fun r => instrument_type (base r)) instrument_type h1 df).
  set (h2 := fun a : Trade => map_base _ (h1 a)).
  rewrite (set_column_combine_first_map
             (fun x => map_base (set_symbol x))
             (fun r => symbol (base r)) symbol h2 df).
  reflexivity.
Qed.

Lemma frame_eq (a b : Frame) : columns a = columns b -> rows a = rows b -> a = b.
Proof. destruct a, b; simpl; intros -> ->; reflexivity. Qed.

Lemma resolve_product_identity (pm : list Product) (t : Trade) :
  row_identity (base (resolve_product pm t)) = row_identity t.
Proof.
  unfold resolve_product. destruct (needs_cusip t); [| reflexivity].
  destruct (cusip_join t _) as [[sym ity] lrk]. reflexivity.
Qed.

Lemma Forall2_map_self {A B : Type} (P : A -> B -> Prop) (f : A -> B) (l : list A) :
  (forall a, In a l -> P a (f a)) -> Forall2 P l (List.map f l).
Proof.
  induction l as [| a l IH]; simpl; intros H; constructor; auto.
Qed.

Lemma enrich_client_rowwise (cols : list string) (l : list Row) (cm : ClientMaster) :
  (has_column "customerID" (cm_columns cm) = true ->
   unique_match (fun r => client_id (base r)) customerID l (cm_rows cm) = true) ->
  _enrich_client (mkFrame cols l) cm
  = mkFrame (columns (_enrich_client (mkFrame cols []) cm))
            (List.map (resolve_client cols cm) l).
Proof.
  intros H. unfold _enrich_client, resolve_client. cbn [columns rows].
  destruct (has_column "customerID" (cm_columns cm)); [| reflexivity].
  rewrite (merge_left_unique_map _ _ _ _ _ (H eq_refl)). reflexivity.
Qed.

(** With one partner at most per key, enrichment works row by row. *)
Lemma run_enrichment_rowwise (df : list Trade) (pm : list Product) (cm : ClientMaster) :
  unique_partners df pm cm = true ->
  run_enrichment df pm cm
  = Ok (mkFrame (enriched_columns cm) (List.map (enrich_row pm cm) df)).
Proof.
  unfold unique_partners. rewrite !andb_true_iff. intros [[H1 H2] H3].
  unfold run_enrichment. rewrite (enrich_product_rowwise df pm H1 H2). cbn [bind].
  rewrite enrich_client_rowwise.
  2: { intros Hc. rewrite Hc in H3. cbn in H3.
       eapply unique_match_transport; [| exact H3].
       apply Forall2_map_self. intros t _.
       pose proof (resolve_product_identity pm t) as E. unfold row_identity in E.
       congruence. }
  f_equal. apply frame_eq.
  - unfold enriched_columns.
    destruct (has_column "liq_rule_key" _); reflexivity.
  - transitivity
      (rows (_fill_liquidity (_derive_notional
         (mkFrame (columns (_enrich_client (mkFrame (product_columns CANONICAL_ORDER) []) cm))
                  (List.map (resolve_client (product_columns CANONICAL_ORDER) cm)
                            (List.map (resolve_product pm) df)))))).
    { destruct (has_column "liq_rule_key" _); reflexivity. }
    rewrite fill_liquidity_rows. cbn [_derive_notional rows].
    rewrite !List.map_map. reflexivity.
Qed.

Lemma unique_match_app {L R : Type} (lk : L -> option string) (rk : R -> option string)
    (a b : list L) (right : list R) :
  unique_match lk rk (a ++ b) right
  = unique_match lk rk a right && unique_match lk rk b right.
Proof. unfold unique_match. apply forallb_app. Qed.

Lemma unique_partners_app (a b : list Trade) (pm : list Product) (cm : ClientMaster) :
  unique_partners (a ++ b) pm cm = true ->
  unique_partners a pm cm = true /\ unique_partners b pm cm = true.
Proof.
  unfold unique_partners. rewrite List.filter_app, !unique_match_app.
  destruct (negb (has_column "customerID" (cm_columns cm)));
    rewrite ?orb_true_l, ?orb_false_l, !andb_true_iff; tauto.
Qed.

(** X9: when every key has one partner at most, a batch can be enriched in
    pieces: if the runs on two batches and on their concatenation return,
    the result for the concatenation has the rows of the first batch's
    result followed by those of the second, under the same columns. *)
Theorem run_enrichment_app (a b : list Trade) (pm : list Product) (cm : ClientMaster)
    (oa ob oab : Frame) :
  unique_partners (a ++ b) pm cm = true ->
  run_enrichment a pm cm = Ok oa ->
  run_enrichment b pm cm = Ok ob ->
  run_enrichment (a ++ b) pm cm = Ok oab ->
  rows oab = rows oa ++ rows ob
  /\ columns oab = columns oa /\ columns oab = columns ob.
Proof.
  intros H. destruct (unique_partners_app a b pm cm H) as [Ha Hb].
  rewrite (run_enrichment_rowwise a pm cm Ha), (run_enrichment_rowwise b pm cm Hb),
    (run_enrichment_rowwise (a ++ b) pm cm H).
  intros [= <-] [= <-] [= <-].
  repeat split. cbn [rows]. apply List.map_app.
Qed.

Lemma run_enrichment_app_witness :
  unique_partners (sample_batch ++ sample_late) sample_reference sample_clients = true
  /\ run_enrichment sample_batch sample_reference sample_clients
     = Ok sample_early_enriched
  /\ run_enrichment sample_late sample_reference sample_clients = Ok sample_late_enriched
  /\ run_enrichment (sample_batch ++ sample_late) sample_reference sample_clients
     = Ok sample_day_enriched
  /\ rows sample_day_enriched = rows sample_early_enriched ++ rows sample_late_enriched
  /\ columns sample_day_enriched = columns sample_early_enriched
  /\ columns sample_day_enriched = columns sample_late_enriched.
Proof.
  split; [reflexivity |].
  split; [vm_compute; reflexivity |].
  split; [vm_compute; reflexivity |].
  split; [vm_compute; reflexivity |].
  apply (run_enrichment_app sample_batch sample_late sample_reference sample_clients
           sample_early_enriched sample_late_enriched sample_day_enriched);
    [reflexivity | vm_compute; reflexivity ..].
Defined.

Lemma partner_unique {R : Type} (k : option string) (rk : R -> option string)
    (right : list R) (p : R) :
  length (List.filter (fun r => key_eq k (rk r)) right) <= 1 ->
  In p right -> rk p = k -> partner k rk right = Some p.
Proof.
  intros Hlen Hp Hk. unfold partner. rewrite find_hd_filter.
  assert (Hin : In p (List.filter (fun r => key_eq k (rk r)) right)).
  { apply filter_In. split; [exact Hp |]. rewrite Hk. unfold key_eq.
    now apply bool_decide_eq_true. }
  destruct (List.filter _ right) as [| x [| y rest]]; simpl in *; [contradiction | | lia].
  destruct Hin as [-> | []]. reflexivity.
Qed.

Lemma partner_none {R : Type} (k : option string) (rk : R -> option string)
    (right : list R) :
  (forall p, In p right -> rk p <> k) -> partner k rk right = None.
Proof.
  unfold partner. induction right as [| r right IH]; simpl; intros H; [reflexivity |].
  unfold key_eq at 1. rewrite bool_decide_eq_false_2.
  - apply IH. intros p Hp. apply H. now right.
  - intros E. apply (H r); [now left | now symmetry].
Qed.

Lemma unique_match_In {L R : Type} (lk : L -> option string) (rk : R -> option string)
    (l : list L) (right : list R) (a : L) :
  unique_match lk rk l right = true -> In a l ->
  length (List.filter (fun r => key_eq (lk a) (rk r)) right) <= 1.
Proof.
  unfold unique_match. rewrite forallb_forall. intros H Ha.
  apply Nat.leb_le. now apply H.
Qed.

Lemma needs_cusip_symbol (t : Trade) : needs_cusip t = true -> symbol t = None.
Proof. unfold needs_cusip. destruct (symbol t); [discriminate | reflexivity]. Qed.

(** X10: with one partner at most per key, a row that takes the CUSIP
    fallback (null symbol, CUSIP present) leaves a run of [_enrich_product]
    that returns with the symbol and the hint of the product entry under
    its CUSIP, and with that entry's instrument type unless it is null, in
    which case the row's own is kept; without such an entry the row keeps
    its own instrument type and its hint is null, whatever the ISIN merge
    had found. *)
Theorem cusip_fallback_values (df : list Trade) (pm : list Product) (out : list Row) :
  unique_match isin pm_isin df pm = true ->
  unique_match cusip pm_cusip (List.filter needs_cusip df) pm = true ->
  _enrich_product df pm = Ok out ->
  Forall2
    (fun t r =>
       needs_cusip t = true ->
       (forall p, In p pm -> pm_cusip p = cusip t ->
          symbol (base r) = pm_symbol p
          /\ instrument_type (base r)
             = match pm_instrument_type p with
               | Some x => Some x
               | None => instrument_type t
               end
          /\ liq_rule_key r = pm_liq_rule_key p)
       /\ ((forall p, In p pm -> pm_cusip p <> cusip t) ->
           symbol (base r) = None
           /\ instrument_type (base r) = instrument_type t
           /\ liq_rule_key r = None))
    df out.
Proof.
  intros H1 H2. rewrite (enrich_product_rowwise df pm H1 H2). intros [= <-].
  apply Forall2_map_self. intros t Ht Hn.
  pose proof (needs_cusip_symbol t Hn) as Hs.
  assert (Hlen : length (List.filter (fun r => key_eq (cusip t) (pm_cusip r)) pm) <= 1).
  { apply (unique_match_In cusip pm_cusip (List.filter needs_cusip df) pm t H2).
    apply filter_In. split; assumption. }
  unfold resolve_product. rewrite Hn. split.
  - intros p Hp Hk. rewrite (partner_unique _ _ _ p Hlen Hp Hk). cbn.
    rewrite Hs. destruct (pm_symbol p), (pm_instrument_type p); auto.
  - intros Hnone. rewrite (partner_none _ _ _ Hnone). cbn.
    rewrite Hs. destruct (instrument_type t); auto.
Qed.

Lemma cusip_fallback_values_witness :
  unique_match isin pm_isin sample_day sample_reference = true
  /\ unique_match cusip pm_cusip (List.filter needs_cusip sample_day) sample_reference = true
  /\ _enrich_product sample_day sample_reference = Ok sample_day_products
  /\ List.map needs_cusip sample_day = [false; true; false; false; false; true]
  /\ Forall2
       (fun t r =>
          needs_cusip t = true ->
          (forall p, In p sample_reference -> pm_cusip p = cusip t ->
             symbol (base r) = pm_symbol p
             /\ instrument_type (base r)
                = match pm_instrument_type p with
                  | Some x => Some x
                  | None => instrument_type t
                  end
             /\ liq_rule_key r = pm_liq_rule_key p)
          /\ ((forall p, In p sample_reference -> pm_cusip p <> cusip t) ->
              symbol (base r) = None
              /\ instrument_type (base r) = instrument_type t
              /\ liq_rule_key r = None))
       sample_day sample_day_products.
Proof.
  split; [reflexivity |]. split; [reflexivity |].
  split; [vm_compute; reflexivity |]. split; [reflexivity |].
  apply (cusip_fallback_values sample_day sample_reference sample_day_products);
    [reflexivity | reflexivity | vm_compute; reflexivity].
Defined.

(** X11: with one partner at most per key, a run of [_enrich_product] that
    returns never loses a known value: a row that came with a symbol
    leaves with that symbol, and a row that came with an instrument type
    leaves with an instrument type. *)
Theorem known_values_kept (df : list Trade) (pm : list Product) (out : list Row) :
  unique_match isin pm_isin df pm = true ->
  unique_match cusip pm_cusip (List.filter needs_cusip df) pm = true ->
  _enrich_product df pm = Ok out ->
  Forall2
    (fun t r =>
       (forall s, symbol t = Some s -> symbol (base r) = Some s)
       /\ (forall x, instrument_type t = Some x ->
                     exists y, instrument_type (base r) = Some y))
    df out.
Proof.
  intros H1 H2. rewrite (enrich_product_rowwise df pm H1 H2). intros [= <-].
  apply Forall2_map_self. intros t _. unfold resolve_product. split.
  - intros s Hs. unfold needs_cusip. rewrite Hs. cbn. rewrite Hs.
    destruct (instrument_type t); reflexivity.
  - intros x Hx. destruct (needs_cusip t).
    + destruct (cusip_join t _) as [[sym ity] lrk]. cbn. rewrite Hx.
      destruct ity as [y |]; [exists y | exists x];
        (destruct sym; [| destruct (symbol t)]); reflexivity.
    + cbn. rewrite Hx. exists x. destruct (symbol t); reflexivity.
Qed.

Lemma known_values_kept_witness :
  unique_match isin pm_isin sample_day sample_reference = true
  /\ unique_match cusip pm_cusip (List.filter needs_cusip sample_day) sample_reference = true
  /\ _enrich_product sample_day sample_reference = Ok sample_day_products
  /\ Forall2
       (fun t r =>
          (forall s, symbol t = Some s -> symbol (base r) = Some s)
          /\ (forall x, instrument_type t = Some x ->
                        exists y, instrument_type (base r) = Some y))
       sample_day sample_day_products.
Proof.
  split; [reflexivity |]. split; [reflexivity |].
  split; [vm_compute; reflexivity |].
  apply (known_values_kept sample_day sample_reference sample_day_products);
    [reflexivity | reflexivity | vm_compute; reflexivity].
Defined.

Lemma resolve_client_keeps (cols : list string) (cm : ClientMaster) (r : Row) :
  liquidity_bucket (base (resolve_client cols cm r)) = liquidity_bucket (base r)
  /\ liq_rule_key (resolve_client cols cm r) = liq_rule_key r.
Proof.
  unfold resolve_client, client_join.
  destruct (has_column "customerID" (cm_columns cm)); split; reflexivity.
Qed.

Lemma enrich_row_bucket (pm : list Product) (cm : ClientMaster) (t : Trade) :
  (forall b, liquidity_bucket t = Some b ->
             liquidity_bucket (base (enrich_row pm cm t)) = Some b)
  /\ (forall k, liquidity_bucket t = None ->
                liq_rule_key (resolve_product pm t) = Some k ->
                liquidity_bucket (base (enrich_row pm cm t)) = Some k).
Proof.
  assert (Hb : liquidity_bucket (base (resolve_product pm t)) = liquidity_bucket t).
  { unfold resolve_product. destruct (needs_cusip t); [| reflexivity].
    destruct (cusip_join t _) as [[sym ity] lrk]. reflexivity. }
  destruct (resolve_client_keeps (product_columns CANONICAL_ORDER) cm
              (resolve_product pm t)) as [Hcb Hck].
  unfold enrich_row. cbn [map_base base set_liquidity_bucket liquidity_bucket].
  unfold liquidity_precedence. cbn [map_base base liq_rule_key set_notional liquidity_bucket].
  rewrite Hcb, Hck, Hb.
  split.
  - intros b ->. reflexivity.
  - intros k -> ->. reflexivity.
Qed.

(** X12: with one partner at most per key, the bucket of a row of a run
    that returns is the bucket the row came with when it had one;
    otherwise it is the hint of the product entry under the row's ISIN, or
    under its CUSIP for a row that takes the CUSIP fallback, when that
    entry has a hint. *)
Theorem bucket_from_reference (df : list Trade) (pm : list Product) (cm : ClientMaster)
    (out : Frame) :
  unique_partners df pm cm = true ->
  run_enrichment df pm cm = Ok out ->
  Forall2
    (fun t r =>
       (forall b, liquidity_bucket t = Some b ->
                  liquidity_bucket (base r) = Some b)
       /\ (forall p k,
             liquidity_bucket t = None -> needs_cusip t = false ->
             In p pm -> pm_isin p = isin t -> pm_liq_rule_key p = Some k ->
             liquidity_bucket (base r) = Some k)
       /\ (forall p k,
             liquidity_bucket t = None -> needs_cusip t = true ->
             In p pm -> pm_cusip p = cusip t -> pm_liq_rule_key p = Some k ->
             liquidity_bucket (base r) = Some k))
    df (rows out).
Proof.
  intros H. rewrite (run_enrichment_rowwise df pm cm H). intros [= <-]. cbn [rows].
  unfold unique_partners in H. rewrite !andb_true_iff in H. destruct H as [[H1 H2] _].
  apply Forall2_map_self. intros t Ht.
  destruct (enrich_row_bucket pm cm t) as [Hkeep Hhint].
  split; [exact Hkeep |]. split.
  - intros p k Hb Hn Hp Hk Hl. apply Hhint; [exact Hb |].
    unfold resolve_product. rewrite Hn.
    rewrite (partner_unique _ _ _ p (unique_match_In _ _ _ _ t H1 Ht) Hp Hk).
    cbn. exact Hl.
  - intros p k Hb Hn Hp Hk Hl. apply Hhint; [exact Hb |].
    unfold resolve_product. rewrite Hn.
    assert (Hlen : length (List.filter (fun r => key_eq (cusip t) (pm_cusip r)) pm) <= 1).
    { apply (unique_match_In cusip pm_cusip (List.filter needs_cusip df) pm t H2).
      apply filter_In. split; assumption. }
    rewrite (partner_unique _ _ _ p Hlen Hp Hk). cbn. exact Hl.
Qed.

Lemma bucket_from_reference_witness :
  unique_partners sample_day sample_reference sample_clients = true
  /\ run_enrichment sample_day sample_reference sample_clients = Ok sample_day_enriched
  /\ List.map (fun r => liquidity_bucket (base r)) (rows sample_day_enriched)
     = [None; Some "LOW"; Some "LOW"; None; Some "MED"; Some "MED"]
  /\ Forall2
       (fun t r =>
          (forall b, liquidity_bucket t = Some b ->
                     liquidity_bucket (base r) = Some b)
          /\ (forall p k,
                liquidity_bucket t = None -> needs_cusip t = false ->
                In p sample_reference -> pm_isin p = isin t ->
                pm_liq_rule_key p = Some k ->
                liquidity_bucket (base r) = Some k)
          /\ (forall p k,
                liquidity_bucket t = None -> needs_cusip t = true ->
                In p sample_reference -> pm_cusip p = cusip t ->
                pm_liq_rule_key p = Some k ->
                liquidity_bucket (base r) = Some k))
       sample_day (rows sample_day_enriched).
Proof.
  split; [reflexivity |].
  split; [vm_compute; reflexivity |].
  split; [vm_compute; reflexivity |].
  apply (bucket_from_reference sample_day sample_reference sample_clients
           sample_day_enriched);
    [reflexivity | vm_compute; reflexivity].
Defined.

(** ** Client columns and the columns of the result *)

Lemma enrich_client_null (fr : Frame) (cm : ClientMaster) :
  Forall
    (fun r =>
       (has_column "customerID" (cm_columns cm) = false
        \/ (has_column "risk_tier" (columns fr) = true
            /\ has_column "risk_tier" (cm_columns cm) = true) ->
        risk_tier (base r) = None)
       /\ (has_column "customerID" (cm_columns cm) = false
           \/ (has_column "region" (columns fr) = true
               /\ has_column "region" (cm_columns cm) = true) ->
           region (base r) = None))
    (rows (_enrich_client fr cm)).
Proof.
  unfold _enrich_client.
  destruct (has_column "customerID" (cm_columns cm)) eqn:Hc; cbn [rows].
  - apply (merge_left_Forall (fun _ => True)); [| apply List.Forall_forall; auto].
    intros r m _. unfold client_join. cbn [base risk_tier region set_region set_risk_tier].
    split; (intros [H | [H1 H2]]; [discriminate | rewrite H1, H2; reflexivity]).
  - apply List.Forall_forall. intros r Hr. apply in_map_iff in Hr as (r0 & <- & _).
    split; intros _; reflexivity.
Qed.

(** X13: an enriched row never carries the client table's risk tier or
    region under [risk_tier] and [region]: when the table has these
    columns they collide with the batch's own in the merge, are renamed,
    and the columns are created anew as null; they are null as well when
    the table has no [customerID] column. *)
Theorem client_attributes_null (df : list Trade) (pm : list Product)
    (cm : ClientMaster) (out : Frame) :
  run_enrichment df pm cm = Ok out ->
  Forall
    (fun r =>
       (has_column "customerID" (cm_columns cm) = false
        \/ has_column "risk_tier" (cm_columns cm) = true ->
        risk_tier (base r) = None)
       /\ (has_column "customerID" (cm_columns cm) = false
           \/ has_column "region" (cm_columns cm) = true ->
           region (base r) = None))
    (rows out).
Proof.
  intros H. apply run_enrichment_inv in H as (out1 & _ & ->).
  rewrite fill_liquidity_rows. cbn [_derive_notional rows].
  pose proof (enrich_client_null (mkFrame (product_columns CANONICAL_ORDER) out1) cm) as HF.
  rewrite List.Forall_forall in HF. apply List.Forall_forall. intros r Hr.
  apply in_map_iff in Hr as (r1 & <- & Hr1).
  apply in_map_iff in Hr1 as (r0 & <- & Hr0).
  destruct (HF r0 Hr0) as [Ht Hg]. cbn [map_base base risk_tier region
    set_liquidity_bucket set_notional].
  split; intros [Hc | Hc]; [apply Ht | apply Ht | apply Hg | apply Hg]; auto.
Qed.

Lemma client_attributes_null_witness :
  run_enrichment sample_batch [sample_product] sample_clients = Ok sample_enriched
  /\ Forall
       (fun r =>
          (has_column "customerID" (cm_columns sample_clients) = false
           \/ has_column "risk_tier" (cm_columns sample_clients) = true ->
           risk_tier (base r) = None)
          /\ (has_column "customerID" (cm_columns sample_clients) = false
              \/ has_column "region" (cm_columns sample_clients) = true ->
              region (base r) = None))
       (rows sample_enriched).
Proof.
  split; [vm_compute; reflexivity |].
  apply (client_attributes_null sample_batch [sample_product] sample_clients sample_enriched).
  vm_compute; reflexivity.
Defined.

Lemma run_enrichment_columns (df : list Trade) (pm : list Product) (cm : ClientMaster)
    (out : Frame) :
  run_enrichment df pm cm = Ok out -> columns out = enriched_columns cm.
Proof.
  unfold run_enrichment, bind, enriched_columns.
  destruct (_enrich_product df pm) as [out1 | e]; [| discriminate].
  intros [= <-]. unfold _enrich_client.
  destruct (has_column "customerID" (cm_columns cm));
    cbn [columns rows _fill_liquidity _derive_notional];
    destruct (has_column "liq_rule_key" _); reflexivity.
Qed.

Lemma enriched_columns_canonical (cm : ClientMaster) :
  forallb (fun c => has_column c (enriched_columns cm)) CANONICAL_ORDER = true
  /\ has_column "liq_rule_key" (enriched_columns cm) = false.
Proof.
  unfold enriched_columns, _enrich_client.
  destruct (has_column "customerID" (cm_columns cm)); cbn [columns].
  - unfold client_columns. cbn [List.filter].
    destruct (has_column "risk_tier" (cm_columns cm)),
             (has_column "region" (cm_columns cm)); vm_compute; split; reflexivity.
  - vm_compute; split; reflexivity.
Qed.

(** X14: every enriched batch has all twenty canonical columns, whatever
    columns the client table has, and never the intermediate
    [liq_rule_key]. *)
Theorem enriched_batch_columns (df : list Trade) (pm : list Product) (cm : ClientMaster)
    (out : Frame) :
  run_enrichment df pm cm = Ok out ->
  forallb (fun c => has_column c (columns out)) CANONICAL_ORDER = true
  /\ has_column "liq_rule_key" (columns out) = false.
Proof.
  intros H. rewrite (run_enrichment_columns df pm cm out H).
  apply enriched_columns_canonical.
Qed.

Lemma enriched_batch_columns_witness :
  run_enrichment sample_batch [sample_product] sample_clients = Ok sample_enriched
  /\ forallb (fun c => has_column c (columns sample_enriched)) CANONICAL_ORDER = true
  /\ has_column "liq_rule_key" (columns sample_enriched) = false.
Proof.
  split; [vm_compute; reflexivity |].
  apply (enriched_batch_columns sample_batch [sample_product] sample_clients sample_enriched).
  vm_compute; reflexivity.
Defined.

Lemma mandatory_all_present (df : Frame) :
  forallb (fun c => has_column c (columns df)) required = true ->
  mandatory_loop required [] df = index_where (List.map mandatory_null (rows df)).
Proof.
  intros Hall. apply ascending_ext.
  - apply (mandatory_loop_present required [] df 0 Hall). constructor.
  - apply index_where_sorted.
  - intros x.
    destruct (mandatory_loop_present required [] df x Hall) as [_ ->]; [constructor |].
    rewrite index_where_map_In. split.
    + intros [[] | (c & r & Hc & Hr & Hn)]. exists r. split; [exact Hr |].
      apply mandatory_null_cells. eauto.
    + intros (r & Hr & Hn). right.
      apply mandatory_null_cells in Hn as (c & Hc & Hn). eauto.
Qed.

(** X15: on a batch that enrichment returned, R001_MANDATORY never takes
    its every-row branch: the mandatory columns all exist, and the rule
    flags exactly the rows with a null in one of them. *)
Theorem mandatory_after_enrichment (df : list Trade) (pm : list Product)
    (cm : ClientMaster) (out : Frame) :
  run_enrichment df pm cm = Ok out ->
  List.map row_index (rule_mandatory out)
  = index_where (List.map mandatory_null (rows out)).
Proof.
  intros H. unfold rule_mandatory. rewrite breaches_row_index.
  apply mandatory_all_present.
  rewrite (run_enrichment_columns df pm cm out H).
  destruct (enriched_columns_canonical cm) as [Hall _].
  rewrite forallb_forall in *. intros c Hc. apply Hall.
  unfold required, CANONICAL_ORDER in *. simpl in *. tauto.
Qed.

Lemma mandatory_after_enrichment_witness :
  run_enrichment sample_batch [sample_product] sample_clients = Ok sample_enriched
  /\ List.map row_index (rule_mandatory sample_enriched)
     = index_where (List.map mandatory_null (rows sample_enriched)).
Proof.
  split; [vm_compute; reflexivity |].
  apply (mandatory_after_enrichment sample_batch [sample_product] sample_clients
           sample_enriched).
  vm_compute; reflexivity.
Defined.

(** X16: deriving the liquidity bucket a second time changes nothing. *)
Theorem fill_liquidity_idempotent (df : Frame) :
  _fill_liquidity (_fill_liquidity df) = _fill_liquidity df.
Proof.
  apply frame_eq; [reflexivity |].
  rewrite (fill_liquidity_rows (_fill_liquidity df)), (fill_liquidity_rows df).
  rewrite List.map_map. apply List.map_ext. intros r.
  unfold liquidity_precedence.
  cbn [map_base base liq_rule_key liquidity_bucket set_liquidity_bucket
       instrument_type notional].
  destruct (liquidity_bucket (base r)) as [b |]; [reflexivity |].
  destruct (liq_rule_key r) as [k |]; [reflexivity |].
  destruct (threshold_bucket (instrument_type (base r)) (notional (base r)));
    reflexivity.
Qed.

(** ** The thresholds are monotone *)

Lemma SFleb_trans (a b c : spec_float) :
  SFleb a b = true -> SFleb b c = true -> SFleb a c = true.
Proof.
  unfold SFleb, SFcompare.
  destruct a as [sa | sa | | sa ma ea], b as [sb | sb | | sb mb eb],
           c as [sc | sc | | sc mc ec];
    try destruct sa; try destruct sb; try destruct sc;
    try discriminate; try reflexivity; intros H1 H2;
    pose proof (Z.compare_spec ea eb) as Zab; pose proof (Z.compare_spec eb ec) as Zbc;
    pose proof (Z.compare_spec ea ec) as Zac;
    pose proof (Pos.compare_spec ma mb) as Pab; pose proof (Pos.compare_spec mb mc) as Pbc;
    pose proof (Pos.compare_spec ma mc) as Pac;
    unfold Pos.compare in Pab, Pbc, Pac;
    destruct Zab, Zbc, Zac; subst; try discriminate; try reflexivity; try lia;
    destruct Pab, Pbc, Pac; subst; simpl in *; try discriminate; try reflexivity; try lia.
Qed.

Lemma leb_trans (a b c : float) :
  (a <=? b)%float = true -> (b <=? c)%float = true -> (a <=? c)%float = true.
Proof. rewrite !leb_spec. apply SFleb_trans. Qed.

Lemma leb_true_notna (a b : float) :
  (a <=? b)%float = true -> float_isna a = false /\ float_isna b = false.
Proof.
  intros H. split.
  - destruct (float_isna a) eqn:E; [| reflexivity].
    now rewrite (leb_nan_false a b E) in H.
  - destruct (float_isna b) eqn:E; [| reflexivity].
    apply float_isna_spec in E. rewrite leb_spec, E in H.
    destruct (Prim2SF a); discriminate.
Qed.

(** X18: the threshold rule is monotone in the notional: for one
    instrument type, a row with the larger notional never gets the lower
    bucket, and whether a bucket is derived at all does not depend on the
    size of the notional. *)
Theorem threshold_rule_monotone (it : option string) (n1 n2 : float) :
  (n1 <=? n2)%float = true ->
  (rule it n1 = Some "HIGH" -> rule it n2 = Some "HIGH")
  /\ (rule it n1 = Some "MED" -> rule it n2 = Some "MED" \/ rule it n2 = Some "HIGH")
  /\ (rule it n1 = None <-> rule it n2 = None).
Proof.
  intros Hle. destruct (leb_true_notna n1 n2 Hle) as [N1 N2].
  assert (Hup : forall c, (c <=? n1)%float = true -> (c <=? n2)%float = true).
  { intros c Hc. exact (leb_trans c n1 n2 Hc Hle). }
  unfold rule. rewrite N1, N2, !orb_false_r.
  destruct (isna it); [repeat split; auto; discriminate |].
  destruct (bool_decide (it = Some "BOND")).
  - destruct (5000000 <=? n1)%float eqn:E1; [rewrite (Hup _ E1); repeat split; auto; discriminate |].
    destruct (1000000 <=? n1)%float eqn:E2.
    + rewrite (Hup _ E2). destruct (5000000 <=? n2)%float;
        repeat split; auto; discriminate.
    + destruct (5000000 <=? n2)%float; [| destruct (1000000 <=? n2)%float];
        repeat split; auto; discriminate.
  - destruct (bool_decide (it ∈ _)); [| repeat split; auto; discriminate].
    destruct (10000000 <=? n1)%float eqn:E1; [rewrite (Hup _ E1); repeat split; auto; discriminate |].
    destruct (2000000 <=? n1)%float eqn:E2.
    + rewrite (Hup _ E2). destruct (10000000 <=? n2)%float;
        repeat split; auto; discriminate.
    + destruct (10000000 <=? n2)%float; [| destruct (2000000 <=? n2)%float];
        repeat split; auto; discriminate.
Qed.

Lemma threshold_rule_monotone_witness :
  (2000000 <=? 6000000)%float = true
  /\ (rule (Some "BOND") 2000000 = Some "HIGH" -> rule (Some "BOND") 6000000 = Some "HIGH")
  /\ (rule (Some "BOND") 2000000 = Some "MED" ->
      rule (Some "BOND") 6000000 = Some "MED" \/ rule (Some "BOND") 6000000 = Some "HIGH")
  /\ (rule (Some "BOND") 2000000 = None <-> rule (Some "BOND") 6000000 = None).
Proof.
  split; [reflexivity |].
  apply (threshold_rule_monotone (Some "BOND") 2000000 6000000). reflexivity.
Defined.

(** ** A row passes iff no rule flags it *)

Lemma seq_ascending (s n : nat) : StronglySorted lt (seq s n).
Proof.
  revert s. induction n as [| n IH]; intros s; simpl; constructor; [apply IH |].
  apply List.Forall_forall. intros i Hi. apply in_seq in Hi. lia.
Qed.

Lemma index_where_all {A : Type} (l : list A) :
  seq 0 (length l) = index_where (List.map (fun _ : A => true) l).
Proof.
  apply ascending_ext.
  - apply seq_ascending.
  - apply index_where_sorted.
  - intros x. rewrite in_seq, index_where_map_In. split.
    + intros Hx. destruct (nth_error l x) as [a |] eqn:E; [eauto |].
      apply nth_error_None in E. lia.
    + intros (a & Ha & _). split; [lia |]. apply nth_error_Some. congruence.
Qed.

Lemma mandatory_index (df : Frame) :
  List.map row_index (rule_mandatory df)
  = index_where (List.map (mandatory_flag df) (rows df)).
Proof.
  unfold rule_mandatory, mandatory_flag. rewrite breaches_row_index.
  destruct (forallb _ required) eqn:Hall.
  - now apply mandatory_all_present.
  - rewrite (mandatory_loop_absent required [] df Hall). unfold index.
    apply index_where_all.
Qed.

Lemma domain_enums_index (df : Frame) :
  List.map row_index (rule_domain_enums df)
  = index_where (List.map (enum_violation (columns df)) (rows df)).
Proof.
  unfold rule_domain_enums. cbv zeta. rewrite breaches_row_index.
  rewrite (union_step [] _ (fun _ => false) _ (rows df) (index_where_none _)).
  rewrite (union_step _ _ _ _ (rows df) eq_refl).
  rewrite (union_step _ _ _ _ (rows df) eq_refl).
  f_equal. apply List.map_ext. intros r. unfold enum_violation, bad_enum, isin_set.
  destruct (side (base r)), (instrument_type (base r)), (currency (base r));
    cbn [notna isna negb orb]; rewrite ?andb_true_r, ?andb_false_r; reflexivity.
Qed.

Lemma numeric_positive_index (df : Frame) :
  List.map row_index (rule_numeric_positive df)
  = index_where (List.map (not_positive (columns df)) (rows df)).
Proof.
  unfold rule_numeric_positive. cbv zeta. rewrite breaches_row_index.
  rewrite (union_step [] _ (fun _ => false) _ (rows df) (index_where_none _)).
  rewrite (union_step _ _ _ _ (rows df) eq_refl).
  f_equal. apply List.map_ext. intros r. unfold not_positive, float_notna.
  destruct (quantity (base r)); cbn [notna isna negb orb andb int_le0];
    (destruct (float_isna (price (base r))) eqn:Hp;
     [rewrite (leb_nan_false _ _ Hp) | ]; cbn [negb andb]; reflexivity).
Qed.

Lemma identifier_format_index (df : Frame) :
  List.map row_index (rule_identifier_format df)
  = index_where (List.map (bad_identifier (columns df)) (rows df)).
Proof.
  unfold rule_identifier_format. cbv zeta. rewrite breaches_row_index.
  rewrite (union_step [] _ (fun _ => false) _ (rows df) (index_where_none _)).
  rewrite (union_step _ _ _ _ (rows df) eq_refl).
  reflexivity.
Qed.

Lemma timestamp_sanity_index (to_datetime to_datetime_utc : string -> option Z)
    (df : Frame) :
  List.map row_index (rule_timestamp_sanity to_datetime to_datetime_utc df)
  = index_where
      (List.map
         (fun r => has_column "trade_date" (columns df) && has_column "trade_ts" (columns df)
                   && bad_order to_datetime to_datetime_utc r)
         (rows df)).
Proof.
  unfold rule_timestamp_sanity. cbv zeta. rewrite breaches_row_index.
  rewrite (union_step [] _ (fun _ => false) _ (rows df) (index_where_none _)).
  reflexivity.
Qed.

Lemma notional_consistency_index (df : Frame) :
  List.map row_index (rule_notional_consistency df)
  = index_where (List.map (notional_inconsistent (columns df)) (rows df)).
Proof.
  unfold rule_notional_consistency, notional_inconsistent. cbv zeta.
  rewrite breaches_row_index.
  destruct (forallb _ _); [reflexivity |]. apply index_where_none.
Qed.

Lemma ledger_flagged (to_datetime to_datetime_utc : string -> option Z)
    (df : Frame) (i : nat) (r : Row) :
  nth_error (rows df) i = Some r ->
  In i (List.map row_index (run_all_rules to_datetime to_datetime_utc df))
  <-> flagged to_datetime to_datetime_utc df r = true.
Proof.
  intros Hr.
  assert (Hw : forall p : Row -> bool,
             In i (index_where (List.map p (rows df))) <-> p r = true).
  { intros p. rewrite index_where_map_In. split.
    - intros (r' & Hr' & Hp). congruence.
    - intros Hp. eauto. }
  unfold run_all_rules. rewrite run_rules_concat. cbn [rules List.map concat].
  rewrite !List.map_app, !in_app_iff.
  rewrite mandatory_index, domain_enums_index, numeric_positive_index,
    identifier_format_index, timestamp_sanity_index, notional_consistency_index,
    duplicate_keys_index.
  rewrite !Hw. unfold flagged, duplicate_in. rewrite !orb_true_iff. simpl. tauto.
Qed.

(** X19: a row is kept by validation exactly when none of the seven rules'
    conditions holds for it, and rejected exactly when at least one does;
    the kept and the rejected rows stay in the order of the batch. *)
Theorem passed_iff_unflagged (to_datetime to_datetime_utc : string -> option Z)
    (df : Frame) :
  exists res,
    run_validation to_datetime to_datetime_utc df = Ok res
    /\ df_passed res
       = List.filter (fun ir => negb (flagged to_datetime to_datetime_utc df (snd ir)))
                     (combine (index df) (rows df))
    /\ df_failed res
       = List.filter (fun ir => flagged to_datetime to_datetime_utc df (snd ir))
                     (combine (index df) (rows df)).
Proof.
  unfold run_validation.
  set (ledger := run_all_rules to_datetime to_datetime_utc df).
  destruct (validate_with_ok ledger df) as (res & Hres & _ & Hp & Hf & _).
  exists res. split; [exact Hres |].
  assert (Hdec : forall ir,
    In ir (combine (index df) (rows df)) ->
    bool_decide (fst ir ∈ failed_index ledger)
    = flagged to_datetime to_datetime_utc df (snd ir)).
  { intros [i r] Hir. apply index_rows_In in Hir. cbn [fst snd].
    pose proof (ledger_flagged to_datetime to_datetime_utc df i r Hir) as Hl.
    destruct (flagged to_datetime to_datetime_utc df r).
    - apply bool_decide_eq_true. apply failed_index_In. now apply Hl.
    - apply bool_decide_eq_false. rewrite failed_index_In. intros Hin.
      apply Hl in Hin. discriminate. }
  rewrite Hp, Hf. split; apply filter_ext_in; intros ir Hir; rewrite (Hdec ir Hir);
    [reflexivity | apply negb_involutive].
Qed.
